(** * Net registry and net-code remapper of pcbnew (netinfo_list.cpp)

    A shallow embedding of [NETINFO_LIST] (the registry of nets, indexed by
    net code and by net name) and of [NETINFO_MAPPING] (the compaction of the
    net codes a board refers to), followed by the properties the design
    document states about them.

    Conventions of the embedding:
    - a [NETINFO_ITEM*] is an address ([ptr]); the objects live in a memory
      [ptr -> NETINFO_ITEM] that the registry operations read and write, so
      that the registry and its callers share the records as in the source;
    - C++ [int] is modelled by [Z]; signed overflow is undefined behaviour in
      the source and would need 2^31 registered nets, it is not modelled;
    - [std::map<int, NETINFO_ITEM*>] and the name-keyed hash map are [gmap]s;
      where the source iterates over the code map the entries are visited in
      ascending key order;
    - [assert] and [wxASSERT_MSG] stop the operation with a fault. *)

From stdpp Require Import sorting.
From stdpp Require Import base decidable option list gmap fin_maps strings
  functions.

Open Scope Z_scope.

(** ** Outcomes: a small error monad *)

Inductive fault : Type :=
  | AssertionFailed   (* an assert / wxASSERT_MSG of the source fired *)
  | ScanBudget.       (* the bounded unrolling of a loop was exhausted *)

Inductive outcome (A : Type) : Type :=
  | Ok (a : A)
  | Fault (e : fault).
Arguments Ok {A} a.
Arguments Fault {A} e.

#[global] Instance outcome_ret : MRet outcome := fun A a => Ok a.
#[global] Instance outcome_bind : MBind outcome := fun A B f m =>
  match m with
  | Ok a => f a
  | Fault e => Fault e
  end.

(** ** Records and memory *)

Definition ptr : Type := nat.

(** The members of [NETINFO_ITEM] the registry reads or writes. *)
Record NETINFO_ITEM : Type := mkItem {
  m_netCode : Z;
  m_netname : string;
  m_isCurrent : bool
}.

Definition set_netCode (c : Z) (r : NETINFO_ITEM) : NETINFO_ITEM :=
  {| m_netCode := c; m_netname := m_netname r; m_isCurrent := m_isCurrent r |}.

Definition set_isCurrent (b : bool) (r : NETINFO_ITEM) : NETINFO_ITEM :=
  {| m_netCode := m_netCode r; m_netname := m_netname r; m_isCurrent := b |}.

(** Modelled from the spec: the constructor of NETINFO_ITEM is not part of the
    sources at hand; a record is created with the name and code it is given
    and starts out current (state [Active], current = true). *)
Definition new_NETINFO_ITEM (aNetName : string) (aNetCode : Z) : NETINFO_ITEM :=
  {| m_netCode := aNetCode; m_netname := aNetName; m_isCurrent := true |}.

Definition memory : Type := ptr -> NETINFO_ITEM.

(** ** The registry *)

Record NETINFO_LIST : Type := mkList {
  m_netNames : gmap string ptr;
  m_netCodes : gmap Z ptr;
  m_newNetCode : Z;
  m_DisplayNetnamesDirty : bool
}.

Record world : Type := mkWorld {
  mem : memory;
  netinfo : NETINFO_LIST
}.

(** [BOARD_COMMIT]: the [Removed] notifications received so far, oldest
    first. *)
Definition BOARD_COMMIT : Type := list ptr.

(** [std::map::insert] and [std::unordered_map::insert]: an existing key keeps
    its value. *)
Definition std_insert `{Countable K} {V} (k : K) (v : V) (m : gmap K V) : gmap K V :=
  match m !! k with
  | Some _ => m
  | None => <[k := v]> m
  end.

(** The entries of the code map in iteration order (ascending keys). *)
Definition key_le (a b : Z * ptr) : Prop := a.1 <= b.1.

#[global] Instance key_le_dec : RelDecision key_le.
Proof. intros a b. unfold key_le. apply _. Defined.

Definition ascending (codes : gmap Z ptr) : list (Z * ptr) :=
  merge_sort key_le (map_to_list codes).

(** [GetNetItem( int )] and [GetNetItem( const wxString& )]; [None] is
    [nullptr]. *)
Definition GetNetItem_code (l : NETINFO_LIST) (aNetCode : Z) : option ptr :=
  m_netCodes l !! aNetCode.

Definition GetNetItem_name (l : NETINFO_LIST) (aNetName : string) : option ptr :=
  m_netNames l !! aNetName.

(** [getFreeNetCode]: the do-while loop, unrolled at most [fuel] times.
    Each round clamps the hint to 0, pre-increments it and tests the
    incremented value against the code map. *)
Fixpoint getFreeNetCode_loop (fuel : nat) (codes : gmap Z ptr) (newNetCode : Z)
  : option Z :=
  match fuel with
  | O => None
  | S fuel' =>
      let clamped := if decide (newNetCode < 0) then 0 else newNetCode in
      let next := clamped + 1 in
      match codes !! next with
      | Some _ => getFreeNetCode_loop fuel' codes next
      | None => Some next
      end
  end.

(** The registry with [m_newNetCode] set to [c]. *)
Definition with_hint (c : Z) (l : NETINFO_LIST) : NETINFO_LIST :=
  {| m_netNames := m_netNames l; m_netCodes := m_netCodes l; m_newNetCode := c;
     m_DisplayNetnamesDirty := m_DisplayNetnamesDirty l |}.

Definition getFreeNetCode (l : NETINFO_LIST) : outcome (Z * NETINFO_LIST) :=
  match getFreeNetCode_loop (S (size (m_netCodes l))) (m_netCodes l) (m_newNetCode l) with
  | Some c => Ok (c, with_hint c l)
  | None => Fault ScanBudget
  end.

(** [AppendNet]. *)
Definition AppendNet (aNewElement : ptr) (w : world) : outcome world :=
  let l := netinfo w in
  let item := mem w aNewElement in
  match GetNetItem_name l (m_netname item) with
  | Some sameName =>
      Ok {| mem := <[aNewElement := set_netCode (m_netCode (mem w sameName)) item]> (mem w);
            netinfo := l |}
  | None =>
      '(code, l1) ←
        (if bool_decide (m_netCode item ≠ Z.of_nat (size (m_netCodes l)))
            || bool_decide (m_netCode item < 0)
         then getFreeNetCode l
         else Ok (m_netCode item, l));
      let item' := set_netCode code item in
      match GetNetItem_name l1 (m_netname item'), GetNetItem_code l1 (m_netCode item') with
      | None, None =>
          Ok {| mem := <[aNewElement := item']> (mem w);
                netinfo :=
                  {| m_netNames := std_insert (m_netname item') aNewElement (m_netNames l1);
                     m_netCodes := std_insert (m_netCode item') aNewElement (m_netCodes l1);
                     m_newNetCode := m_newNetCode l1;
                     m_DisplayNetnamesDirty := true |} |}
      | _, _ => Fault AssertionFailed
      end
  end.

(** The constructor: the unconnected net is created at address [p0] and
    appended to the empty registry.  The constructor leaves
    [m_DisplayNetnamesDirty] to its default; [AppendNet] sets it. *)
Definition NETINFO_LIST_new (p0 : ptr) (m : memory) : outcome world :=
  AppendNet p0
    {| mem := <[p0 := new_NETINFO_ITEM "" 0]> m;
       netinfo := {| m_netNames := ∅; m_netCodes := ∅; m_newNetCode := 0;
                     m_DisplayNetnamesDirty := false |} |}.

(** [RemoveNet]: each map is searched for the first entry that holds the
    pointer, the code map in ascending key order, the name map (a hash map,
    whose iteration order is unspecified) in the order of [map_to_list].  The
    wxASSERT_MSG fires when only the name map holds the pointer. *)
Definition holds (aNet : ptr) {K} (e : K * ptr) : Prop := e.2 = aNet.

#[global] Instance holds_dec aNet {K} (e : K * ptr) : Decision (holds aNet e).
Proof. unfold holds. apply _. Defined.

Definition RemoveNet (aNet : ptr) (w : world) : outcome world :=
  let l := netinfo w in
  let '(removed, codes') :=
    match list_find (holds aNet) (ascending (m_netCodes l)) with
    | Some (_, (k, _)) => (true, delete k (m_netCodes l))
    | None => (false, m_netCodes l)
    end in
  names' ←
    match list_find (holds aNet) (map_to_list (m_netNames l)) with
    | Some (_, (n, _)) =>
        if removed then Ok (delete n (m_netNames l)) else Fault AssertionFailed
    | None => Ok (m_netNames l)
    end;
  Ok {| mem := mem w;
        netinfo :=
          if removed
          then {| m_netNames := names'; m_netCodes := codes';
                  m_newNetCode := Z.min (m_newNetCode l) (m_netCode (mem w aNet) - 1);
                  m_DisplayNetnamesDirty := true |}
          else {| m_netNames := names'; m_netCodes := codes';
                  m_newNetCode := m_newNetCode l;
                  m_DisplayNetnamesDirty := m_DisplayNetnamesDirty l |} |}.

(** [RemoveUnusedNets]: one round of the loop over [existingNets]. *)
Definition prune_step (m : memory) (acc : NETINFO_LIST * option BOARD_COMMIT)
  (e : Z * ptr) : NETINFO_LIST * option BOARD_COMMIT :=
  let '(l, aCommit) := acc in
  let '(netCode, netInfo) := e in
  if m_isCurrent (m netInfo)
  then ({| m_netNames := std_insert (m_netname (m netInfo)) netInfo (m_netNames l);
           m_netCodes := std_insert netCode netInfo (m_netCodes l);
           m_newNetCode := m_newNetCode l;
           m_DisplayNetnamesDirty := m_DisplayNetnamesDirty l |}, aCommit)
  else ({| m_netNames := m_netNames l; m_netCodes := m_netCodes l;
           m_newNetCode := m_newNetCode l;
           m_DisplayNetnamesDirty := true |},
        (fun log => log ++ [netInfo]) <$> aCommit).

Definition RemoveUnusedNets (aCommit : option BOARD_COMMIT) (w : world)
  : world * option BOARD_COMMIT :=
  let l := netinfo w in
  let existingNets := ascending (m_netCodes l) in
  let cleared := {| m_netNames := ∅; m_netCodes := ∅;
                    m_newNetCode := m_newNetCode l;
                    m_DisplayNetnamesDirty := m_DisplayNetnamesDirty l |} in
  let '(l', aCommit') := foldl (prune_step (mem w)) (cleared, aCommit) existingNets in
  ({| mem := mem w; netinfo := l' |}, aCommit').

(** Modelled from the spec: NETINFO_ITEM::SetIsCurrent is declared in a header
    that is not part of the sources at hand; the membership recompute of the
    board uses it to mark a record current or orphaned. *)
Definition SetIsCurrent (p : ptr) (b : bool) (w : world) : world :=
  {| mem := <[p := set_isCurrent b (mem w p)]> (mem w); netinfo := netinfo w |}.

(** ** The remapper *)

(** A drawing is a shape, which carries a net code, or another kind of item. *)
Inductive BOARD_ITEM : Type :=
  | PCB_SHAPE (netCode : Z)
  | OTHER_ITEM.

Record FOOTPRINT : Type := mkFootprint { Pads : list Z }.

(** The board as [Update] sees it: zones, tracks and pads are given by their
    net codes. *)
Record BOARD : Type := mkBoard {
  Zones : list Z;
  Tracks : list Z;
  Drawings : list BOARD_ITEM;
  Footprints : list FOOTPRINT
}.

(** [std::set<int>::insert] on the ascending list of the elements. *)
Fixpoint set_insert (x : Z) (s : list Z) : list Z :=
  match s with
  | [] => [x]
  | y :: s' =>
      if decide (x < y) then x :: y :: s'
      else if decide (x = y) then y :: s'
      else y :: set_insert x s'
  end.

Definition insert_all (xs : list Z) (s : list Z) : list Z :=
  foldl (fun acc x => set_insert x acc) s xs.

Definition insert_shape (acc : list Z) (item : BOARD_ITEM) : list Z :=
  match item with
  | PCB_SHAPE c => if decide (c > 0) then set_insert c acc else acc
  | OTHER_ITEM => acc
  end.

Definition used_nets (b : BOARD) : list Z :=
  let nets := set_insert 0 [] in
  let nets := insert_all (Zones b) nets in
  let nets := insert_all (Tracks b) nets in
  let nets := foldl insert_shape nets (Drawings b) in
  foldl (fun acc fp => insert_all (Pads fp) acc) nets (Footprints b).

(** The final loop of [Update]: [m_netMapping[net] = newNetCode++]. *)
Definition assign (acc : gmap Z Z * Z) (net : Z) : gmap Z Z * Z :=
  (<[net := acc.2]> acc.1, acc.2 + 1).

Definition Update (b : BOARD) : gmap Z Z :=
  (foldl assign (∅, 0) (used_nets b)).1.

Definition Translate (m_netMapping : gmap Z Z) (aNetCode : Z) : Z :=
  match m_netMapping !! aNetCode with
  | Some v => v
  | None => aNetCode
  end.

(** ** The vocabulary of the properties *)

(** The world after the record at [p] was merged into the record at [q]. *)
Definition merged (p q : ptr) (w : world) : world :=
  {| mem := <[p := set_netCode (m_netCode (mem w q)) (mem w p)]> (mem w);
     netinfo := netinfo w |}.

(** The world after the record at [p] entered the registry under code [c],
    the hint being [h] afterwards. *)
Definition inserted (p : ptr) (c h : Z) (w : world) : world :=
  {| mem := <[p := set_netCode c (mem w p)]> (mem w);
     netinfo :=
       {| m_netNames := <[m_netname (mem w p) := p]> (m_netNames (netinfo w));
          m_netCodes := <[c := p]> (m_netCodes (netinfo w));
          m_newNetCode := h;
          m_DisplayNetnamesDirty := true |} |}.

(** The world after the registered record at [p] left the registry. *)
Definition removed (p : ptr) (w : world) : world :=
  {| mem := mem w;
     netinfo :=
       {| m_netNames := delete (m_netname (mem w p)) (m_netNames (netinfo w));
          m_netCodes := delete (m_netCode (mem w p)) (m_netCodes (netinfo w));
          m_newNetCode := Z.min (m_newNetCode (netinfo w)) (m_netCode (mem w p) - 1);
          m_DisplayNetnamesDirty := true |} |}.

(** A record is registered when one of the indices holds its address. *)
Definition registered (w : world) (p : ptr) : Prop :=
  (∃ k, m_netCodes (netinfo w) !! k = Some p) ∨
  (∃ n, m_netNames (netinfo w) !! n = Some p).

(** Every entry of an index is filed under the code, respectively the name,
    of the record it holds, and the other index holds that record too. *)
Record consistent (w : world) : Prop := mkConsistent {
  codes_keyed : ∀ k p, m_netCodes (netinfo w) !! k = Some p →
    m_netCode (mem w p) = k ∧
    m_netNames (netinfo w) !! m_netname (mem w p) = Some p;
  names_keyed : ∀ n p, m_netNames (netinfo w) !! n = Some p →
    m_netname (mem w p) = n ∧
    m_netCodes (netinfo w) !! m_netCode (mem w p) = Some p
}.

(** The record an entry of the code map holds is current. *)
Definition current (m : memory) (e : Z * ptr) : Prop := m_isCurrent (m e.2) = true.

#[global] Instance current_dec m e : Decision (current m e).
Proof. unfold current. apply _. Defined.

(** The entry of the name map that [RemoveUnusedNets] makes for an entry of
    the code map. *)
Definition named (m : memory) (e : Z * ptr) : string * ptr := (m_netname (m e.2), e.2).

(** The records [RemoveUnusedNets] drops, in the order it meets them. *)
Definition dropped (w : world) : list ptr :=
  (filter (fun e => ¬ current (mem w) e) (ascending (m_netCodes (netinfo w)))).*2.

(** The net codes the geometry of a board refers to. *)
Definition referenced (b : BOARD) (c : Z) : Prop :=
  c ∈ Zones b ∨ c ∈ Tracks b ∨ (PCB_SHAPE c ∈ Drawings b ∧ 0 < c) ∨
  ∃ fp, fp ∈ Footprints b ∧ c ∈ Pads fp.

(** [c] is the first code at or above [start] that the code map does not
    hold. *)
Definition first_free_from (start : Z) (codes : gmap Z ptr) (c : Z) : Prop :=
  start <= c ∧ codes !! c = None ∧ ∀ k, start <= k < c → is_Some (codes !! k).

(** The registry holds exactly the records [done], the [i]-th of them under
    code [i], and the hint is one of these codes. *)
Record dense (done : list ptr) (w : world) : Prop := mkDense {
  dense_size : size (m_netCodes (netinfo w)) = length done;
  dense_codes : ∀ i p, done !! i = Some p →
    m_netCodes (netinfo w) !! Z.of_nat i = Some p ∧ m_netCode (mem w p) = Z.of_nat i;
  dense_keys : ∀ k, is_Some (m_netCodes (netinfo w) !! k) →
    0 <= k < Z.of_nat (length done);
  dense_hint : 0 <= m_newNetCode (netinfo w) < Z.of_nat (length done);
  dense_names : ∀ s, is_Some (m_netNames (netinfo w) !! s) →
    ∃ p, p ∈ done ∧ m_netname (mem w p) = s
}.

(** [p] is the record the code index holds under code 0. *)
Definition unconnected (w : world) (p : ptr) : Prop :=
  m_netCodes (netinfo w) !! 0 = Some p.

(** The caller creates a record at an address the registry does not hold. *)
Definition create (p : ptr) (r : NETINFO_ITEM) (w : world) : world :=
  {| mem := <[p := r]> (mem w); netinfo := netinfo w |}.

(** One operation on a registry in use: a caller creates a record, appends
    one, removes one that is not the unconnected net, marks one current or
    orphaned, or prunes while the unconnected net is current. *)
Inductive step : world → world → Prop :=
  | step_create p r w :
      ¬ registered w p → step w (create p r w)
  | step_append p w w' :
      AppendNet p w = Ok w' → step w w'
  | step_remove p w w' :
      ¬ unconnected w p → RemoveNet p w = Ok w' → step w w'
  | step_mark p b w :
      step w (SetIsCurrent p b w)
  | step_prune aCommit w :
      (∀ p, unconnected w p → m_isCurrent (mem w p) = true) →
      step w (RemoveUnusedNets aCommit w).1.

Inductive reachable : world → Prop :=
  | reach_new p0 m w0 : NETINFO_LIST_new p0 m = Ok w0 → reachable w0
  | reach_step w w' : reachable w → step w w' → reachable w'.

(** A run of record creations, markings, [AppendNet] calls that return and
    [RemoveUnusedNets] calls.  It has no step for [RemoveNet] and none for
    [clear]: these two assign to the hint a value that can be lower. *)
Inductive without_remove_or_clear : world → world → Prop :=
  | run_done w :
      without_remove_or_clear w w
  | run_create p r w w' :
      without_remove_or_clear (create p r w) w' → without_remove_or_clear w w'
  | run_append p w w1 w' :
      AppendNet p w = Ok w1 → without_remove_or_clear w1 w' →
      without_remove_or_clear w w'
  | run_mark p b w w' :
      without_remove_or_clear (SetIsCurrent p b w) w' → without_remove_or_clear w w'
  | run_prune aCommit w w' :
      without_remove_or_clear (RemoveUnusedNets aCommit w).1 w' →
      without_remove_or_clear w w'.

(** Exactly one registered record has code 0, and its name is empty. *)
Definition one_unconnected (w : world) : Prop :=
  ∃ p0, registered w p0 ∧ m_netCode (mem w p0) = 0 ∧ m_netname (mem w p0) = "" ∧
        ∀ q, registered w q → m_netCode (mem w q) = 0 → q = p0.

(** No two registered records share their (code, name) pair. *)
Definition pairs_unique (w : world) : Prop :=
  ∀ p q, registered w p → registered w q →
         (m_netCode (mem w p), m_netname (mem w p)) =
         (m_netCode (mem w q), m_netname (mem w q)) → p = q.

(** The invariant that is preserved step by step. *)
Record grounded (w : world) : Prop := mkGrounded {
  grounded_consistent : consistent w;
  grounded_zero : ∃ p0, unconnected w p0 ∧ m_netname (mem w p0) = ""
}.

(** A series of [AppendNet] calls. *)
Fixpoint AppendNets (ps : list ptr) (w : world) : outcome world :=
  match ps with
  | [] => Ok w
  | p :: ps' => w' ← AppendNet p w; AppendNets ps' w'
  end.

(** No registry yet: empty indices, and a memory of unnamed records. *)
Definition blank_world : world :=
  {| mem := fun _ => new_NETINFO_ITEM "" (-1);
     netinfo := {| m_netNames := ∅; m_netCodes := ∅; m_newNetCode := 0;
                   m_DisplayNetnamesDirty := false |} |}.

(** The world an operation ended in ([blank_world] if it faulted). *)
Definition world_of (o : outcome world) : world :=
  match o with
  | Ok w => w
  | Fault _ => blank_world
  end.

(** Records the callers have created: GND at 1, VCC at 2 (with a proposed
    code that is not the next slot), a second GND at 3, CLK at 4 and a record
    at 5 whose proposed code is 2. *)
Definition sample_memory : memory :=
  <[1%nat := new_NETINFO_ITEM "GND" (-1)]> (
  <[2%nat := new_NETINFO_ITEM "VCC" 7]> (
  <[3%nat := new_NETINFO_ITEM "GND" (-1)]> (
  <[4%nat := new_NETINFO_ITEM "CLK" (-1)]> (
  <[5%nat := new_NETINFO_ITEM "RST" 2]> (mem blank_world))))).

(** The registry right after construction, the unconnected net at 0. *)
Definition fresh_world : world := world_of (NETINFO_LIST_new 0%nat sample_memory).

(** The registry after GND and VCC were appended. *)
Definition sample_world : world := world_of (AppendNets [1; 2]%nat fresh_world).

(** GND is no longer referenced by the board. *)
Definition unplugged_world : world := SetIsCurrent 1%nat false sample_world.

(** GND and VCC are no longer referenced by the board. *)
Definition orphaned_world : world :=
  SetIsCurrent 2%nat false (SetIsCurrent 1%nat false sample_world).

(** The registry after these two were pruned, without a commit. *)
Definition pruned_world : world := (RemoveUnusedNets None orphaned_world).1.

(** A track that carries the code -1. *)
Definition board_with_negative_code : BOARD :=
  {| Zones := []; Tracks := [-1]; Drawings := []; Footprints := [] |}.

(** A board that refers to the codes 5 and 7, and to 0 through a shape and a
    pad. *)
Definition sample_board : BOARD :=
  {| Zones := [5];
     Tracks := [7; 5];
     Drawings := [PCB_SHAPE 0; OTHER_ITEM; PCB_SHAPE 7];
     Footprints := [mkFootprint [0; 7]; mkFootprint []] |}.

(** Closed goals are settled by evaluation. *)
Ltac by_computation := vm_compute; repeat split; reflexivity.

Ltac decide_by_computation := apply (bool_decide_unpack _); vm_compute; exact I.

(** ** Further operations of the registry *)

(** [clear]: the records the name map holds are deleted, both maps are
    emptied and the hint is reset to 0; the stale flag is not touched.  The
    addresses handed to [delete] are returned, in the order of the
    iteration. *)
Definition clear (w : world) : world * list ptr :=
  ({| mem := mem w;
      netinfo := {| m_netNames := ∅; m_netCodes := ∅; m_newNetCode := 0;
                    m_DisplayNetnamesDirty := m_DisplayNetnamesDirty (netinfo w) |} |},
   (map_to_list (m_netNames (netinfo w))).*2).

(** The members of [NETINFO_ITEM] that only [RebuildDisplayNetnames] uses;
    they are kept in a table of their own, addressed like the records. *)
Record NETINFO_NAMES : Type := mkNames {
  m_shortNetname : string;
  m_displayNetname : string
}.

Definition name_memory : Type := ptr -> NETINFO_NAMES.

(** The nets a range-for over the registry visits.  The iterator is declared
    in a header outside these sources; the values of the name map are taken
    (in a registry whose indices agree the code map holds the same
    records). *)
Definition nets_of (l : NETINFO_LIST) : list ptr := (map_to_list (m_netNames l)).*2.

(** [shortNames[net->m_shortNetname]++]; a key that is missing counts as 0. *)
Definition count_short (nm : name_memory) (shortNames : gmap string Z) (net : ptr)
  : gmap string Z :=
  <[m_shortNetname (nm net) := default 0 (shortNames !! m_shortNetname (nm net)) + 1]>
    shortNames.

(** The body of the second loop: the display name is the unescaped short
    name when that short name was counted once, the unescaped full name
    otherwise. *)
Definition set_display (UnescapeString : string -> string) (m : memory)
  (shortNames : gmap string Z) (nm : name_memory) (net : ptr) : name_memory :=
  <[net := {| m_shortNetname := m_shortNetname (nm net);
              m_displayNetname :=
                if decide (default 0 (shortNames !! m_shortNetname (nm net)) = 1)
                then UnescapeString (m_shortNetname (nm net))
                else UnescapeString (m_netname (m net)) |}]> nm.

(** [RebuildDisplayNetnames]; [UnescapeString] is defined outside these
    sources and is taken as a parameter. *)
Definition RebuildDisplayNetnames (UnescapeString : string -> string)
  (w : world) (nm : name_memory) : world * name_memory :=
  let nets := nets_of (netinfo w) in
  let shortNames := foldl (count_short nm) ∅ nets in
  ({| mem := mem w;
      netinfo := {| m_netNames := m_netNames (netinfo w);
                    m_netCodes := m_netCodes (netinfo w);
                    m_newNetCode := m_newNetCode (netinfo w);
                    m_DisplayNetnamesDirty := false |} |},
   foldl (set_display UnescapeString (mem w) shortNames) nm nets).

(** Short names for the sample records: two nets called N1 in different
    sheets, and VCC. *)
Definition sample_names : name_memory :=
  <[1%nat := mkNames "N1" ""]> (
  <[2%nat := mkNames "VCC" ""]> (
  <[4%nat := mkNames "N1" ""]> (fun _ => mkNames "" ""))).

(** The registry after CLK was appended as well. *)
Definition larger_world : world := world_of (AppendNets [1; 2; 4]%nat fresh_world).

(** GND was removed from the sample registry: the codes in use are 0 and 2. *)
Definition gapped_world : world := world_of (RemoveNet 1%nat sample_world).

(** Any one operation on a registry: a caller creates a record at an address
    that is not registered, marks a record, or calls [AppendNet],
    [RemoveNet], [RemoveUnusedNets] or [clear].  A call of [AppendNet] or of
    [RemoveNet] is a step only when it returns, that is when none of its
    assertions fires; the arguments are otherwise arbitrary. *)
Inductive operation : world → world → Prop :=
  | op_create p r w :
      ¬ registered w p → operation w (create p r w)
  | op_mark p b w :
      operation w (SetIsCurrent p b w)
  | op_append p w w' :
      AppendNet p w = Ok w' → operation w w'
  | op_remove p w w' :
      RemoveNet p w = Ok w' → operation w w'
  | op_prune aCommit w :
      operation w (RemoveUnusedNets aCommit w).1
  | op_clear w :
      operation w (clear w).1.

(** The worlds a registry can be in, from its construction on, as long as
    every call made on it has returned. *)
Inductive in_use : world → Prop :=
  | in_use_new p0 m w0 : NETINFO_LIST_new p0 m = Ok w0 → in_use w0
  | in_use_op w w' : in_use w → operation w w' → in_use w'.

(** A record that proposes the next slot of the sample registry. *)
Definition proposing_world : world :=
  create 6%nat (new_NETINFO_ITEM "D+" 3) sample_world.

(** The names of a net after its display name was recomputed with the counts
    [shortNames]. *)
Definition display_of (UnescapeString : string -> string) (m : memory)
  (shortNames : gmap string Z) (nm : name_memory) (net : ptr) : NETINFO_NAMES :=
  {| m_shortNetname := m_shortNetname (nm net);
     m_displayNetname :=
       if decide (default 0 (shortNames !! m_shortNetname (nm net)) = 1)
       then UnescapeString (m_shortNetname (nm net))
       else UnescapeString (m_netname (m net)) |}.

(** The sample registry with CLK, seen through [sample_names]: GND and CLK
    share the short name N1. *)
Definition displayed_names : name_memory :=
  (RebuildDisplayNetnames (fun s => s) larger_world sample_names).2.

(** ** Field name templates (template_fieldnames.cpp) *)

Record TEMPLATE_FIELDNAME : Type := mkField {
  m_Name : string;
  m_Visible : bool;
  m_URL : bool
}.

Record TEMPLATES : Type := mkTemplates {
  m_globals : list TEMPLATE_FIELDNAME;
  m_project : list TEMPLATE_FIELDNAME;
  m_resolved : list TEMPLATE_FIELDNAME;
  m_resolvedDirty : bool
}.

(** The inner loop of [resolveTemplates]: each project template is compared
    with the global one and the loop continues; it has no effect. *)
Definition compare_with_project (global : TEMPLATE_FIELDNAME)
  (project : list TEMPLATE_FIELDNAME) : unit :=
  foldl (fun _ proj => if decide (m_Name global = m_Name proj) then tt else tt) tt project.

(** One round of the outer loop: the inner loop, then the [push_back]. *)
Definition resolve_step (project resolved : list TEMPLATE_FIELDNAME)
  (global : TEMPLATE_FIELDNAME) : list TEMPLATE_FIELDNAME :=
  let _ := compare_with_project global project in
  resolved ++ [global].

Definition resolveTemplates (t : TEMPLATES) : TEMPLATES :=
  {| m_globals := m_globals t;
     m_project := m_project t;
     m_resolved := foldl (resolve_step (m_project t)) (m_project t) (m_globals t);
     m_resolvedDirty := false |}.

(** The first loop of [AddTemplateFieldName]; the number of mandatory fields
    and their canonical names are declared outside these sources and are
    taken as parameters. *)
Definition is_mandatory (MANDATORY_FIELDS : nat) (GetCanonicalFieldName : nat -> string)
  (aName : string) : bool :=
  existsb (fun i => bool_decide (GetCanonicalFieldName i = aName)) (seq 0 MANDATORY_FIELDS).

(** The second loop: the first template of the same name is overwritten;
    [None] when there is none. *)
Fixpoint overwrite_same_name (aFieldName : TEMPLATE_FIELDNAME)
  (target : list TEMPLATE_FIELDNAME) : option (list TEMPLATE_FIELDNAME) :=
  match target with
  | [] => None
  | temp :: rest =>
      if decide (m_Name temp = m_Name aFieldName)
      then Some (aFieldName :: rest)
      else (fun rest' => temp :: rest') <$> overwrite_same_name aFieldName rest
  end.

Definition AddTemplateFieldName (MANDATORY_FIELDS : nat)
  (GetCanonicalFieldName : nat -> string)
  (aFieldName : TEMPLATE_FIELDNAME) (aGlobal : bool) (t : TEMPLATES) : TEMPLATES :=
  if is_mandatory MANDATORY_FIELDS GetCanonicalFieldName (m_Name aFieldName) then t
  else
    let target := if aGlobal then m_globals t else m_project t in
    let target' :=
      match overwrite_same_name aFieldName target with
      | Some overwritten => overwritten
      | None => target ++ [aFieldName]
      end in
    {| m_globals := if aGlobal then target' else m_globals t;
       m_project := if aGlobal then m_project t else target';
       m_resolved := m_resolved t;
       m_resolvedDirty := true |}.

Definition DeleteAllFieldNameTemplates (aGlobal : bool) (t : TEMPLATES) : TEMPLATES :=
  if aGlobal
  then {| m_globals := []; m_project := m_project t; m_resolved := m_project t;
          m_resolvedDirty := false |}
  else {| m_globals := m_globals t; m_project := []; m_resolved := m_globals t;
          m_resolvedDirty := false |}.

(** [GetTemplateFieldNames()]: the list it returns and the object, which it
    may have resolved. *)
Definition GetTemplateFieldNames (t : TEMPLATES) : TEMPLATES * list TEMPLATE_FIELDNAME :=
  let t' := if m_resolvedDirty t then resolveTemplates t else t in
  (t', m_resolved t').

(** [GetTemplateFieldNames( bool aGlobal )]. *)
Definition GetTemplateFieldNames_of (aGlobal : bool) (t : TEMPLATES)
  : list TEMPLATE_FIELDNAME :=
  if aGlobal then m_globals t else m_project t.

(** [GetFieldName]: the first resolved template of that name, [None] for
    [nullptr]. *)
Definition GetFieldName (aName : string) (t : TEMPLATES)
  : TEMPLATES * option TEMPLATE_FIELDNAME :=
  let t' := if m_resolvedDirty t then resolveTemplates t else t in
  (t', snd <$> list_find (fun field => m_Name field = aName) (m_resolved t')).

(** The cache [m_resolved] is up to date unless it is marked dirty. *)
Definition resolved_ok (t : TEMPLATES) : Prop :=
  m_resolvedDirty t = false → m_resolved t = m_project t ++ m_globals t.

(** The templates of one list have distinct names, none of them mandatory. *)
Definition well_named (MANDATORY_FIELDS : nat) (GetCanonicalFieldName : nat -> string)
  (l : list TEMPLATE_FIELDNAME) : Prop :=
  NoDup (m_Name <$> l) ∧
  ∀ f, f ∈ l → is_mandatory MANDATORY_FIELDS GetCanonicalFieldName (m_Name f) = false.

(** Sample templates: the mandatory names of a symbol, and a project and a
    global template that carry the same name. *)
Definition sample_canonical (i : nat) : string :=
  match i with
  | 0%nat => "Reference"
  | 1%nat => "Value"
  | 2%nat => "Footprint"
  | 3%nat => "Datasheet"
  | _ => "Description"
  end.

Definition sample_templates : TEMPLATES :=
  {| m_globals := [mkField "MPN" true false; mkField "Vendor" false false];
     m_project := [mkField "MPN" false false];
     m_resolved := [];
     m_resolvedDirty := true |}.

(** * Properties of the embedding *)

(** ** Container lemmas *)

Section containers.
Context `{Countable K} {V : Type}.
Implicit Types (m : gmap K V) (k : K) (v : V).

Lemma lookup_std_insert k v m k' :
  std_insert k v m !! k' =
    match m !! k' with
    | Some x => Some x
    | None => if decide (k = k') then Some v else None
    end.
Proof.
  unfold std_insert. destruct (m !! k) as [x|] eqn:Hk.
  - destruct (m !! k') eqn:Hk'; [done|].
    case_decide; [congruence | done].
  - rewrite lookup_insert. case_decide; subst.
    + by rewrite Hk.
    + by destruct (m !! k').
Qed.

Lemma std_insert_fresh k v m : m !! k = None → std_insert k v m = <[k := v]> m.
Proof. unfold std_insert. by intros ->. Qed.

Lemma std_insert_taken k v m : is_Some (m !! k) → std_insert k v m = m.
Proof. unfold std_insert. by intros [x ->]. Qed.
End containers.

Lemma elem_of_ascending (codes : gmap Z ptr) k p :
  (k, p) ∈ ascending codes ↔ codes !! k = Some p.
Proof.
  unfold ascending. rewrite merge_sort_Permutation. apply elem_of_map_to_list.
Qed.

Lemma NoDup_ascending (codes : gmap Z ptr) : NoDup (ascending codes).
Proof.
  unfold ascending. rewrite merge_sort_Permutation. apply NoDup_map_to_list.
Qed.

#[global] Instance key_le_total : Total key_le.
Proof. intros a b. unfold key_le. lia. Qed.

#[global] Instance key_le_trans : Transitive key_le.
Proof. intros a b c. unfold key_le. lia. Qed.

Lemma ascending_sorted (codes : gmap Z ptr) : StronglySorted key_le (ascending codes).
Proof. apply StronglySorted_merge_sort; apply _. Qed.

(** The first entry that holds a pointer, when the pointer sits under one key
    only. *)
Lemma list_find_holds {K} (l : list (K * ptr)) (aNet : ptr) (k : K) :
  (k, aNet) ∈ l →
  (∀ k', (k', aNet) ∈ l → k' = k) →
  ∃ i, list_find (holds aNet) l = Some (i, (k, aNet)).
Proof.
  intros Hin Huniq.
  destruct (list_find (holds aNet) l) as [[i [k' q]]|] eqn:Hf.
  - apply list_find_Some in Hf as (Hi & Hq & _). unfold holds in Hq; simpl in Hq; subst q.
    apply list_elem_of_lookup_2 in Hi. apply Huniq in Hi as ->. eauto.
  - apply list_find_None in Hf. rewrite list.Forall_forall in Hf.
    exfalso. apply (Hf _ Hin). reflexivity.
Qed.

Lemma list_find_holds_None {K} (l : list (K * ptr)) (aNet : ptr) :
  (∀ k, (k, aNet) ∉ l) → list_find (holds aNet) l = None.
Proof.
  intros Hno. apply list_find_None, list.Forall_forall. intros [k q] Hin Hq.
  unfold holds in Hq; simpl in Hq; subst q. by apply (Hno k).
Qed.

(** ** The free-code scan *)

Lemma getFreeNetCode_loop_sound fuel (codes : gmap Z ptr) h c :
  getFreeNetCode_loop fuel codes h = Some c →
  Z.max h 0 < c ∧ codes !! c = None ∧
  ∀ k, Z.max h 0 < k < c → is_Some (codes !! k).
Proof.
  revert h. induction fuel as [|fuel IH]; intros h; simpl; [done|].
  set (next := (if decide (h < 0) then 0 else h) + 1).
  assert (Hnext : next = Z.max h 0 + 1) by (unfold next; case_decide; lia).
  destruct (codes !! next) as [q|] eqn:Hq.
  - intros Hc. apply IH in Hc as (Hlt & Hfree & Hfull).
    split_and!; [lia | done |].
    intros k Hk. destruct (decide (k = next)) as [->|Hne]; [by eexists|].
    apply Hfull. lia.
  - intros [= <-]. split_and!; [lia | done | intros k Hk; lia].
Qed.

Lemma getFreeNetCode_loop_delete fuel (codes : gmap Z ptr) h k :
  k <= Z.max h 0 →
  getFreeNetCode_loop fuel (delete k codes) h = getFreeNetCode_loop fuel codes h.
Proof.
  revert h. induction fuel as [|fuel IH]; intros h Hk; simpl; [done|].
  set (next := (if decide (h < 0) then 0 else h) + 1).
  assert (Hnext : next = Z.max h 0 + 1) by (unfold next; case_decide; lia).
  rewrite lookup_delete_ne by lia.
  destruct (codes !! next); [|done]. apply IH. lia.
Qed.

(** The loop ends within [size codes + 1] rounds: every round that goes on
    has met one more registered code. *)
Lemma getFreeNetCode_loop_total fuel (codes : gmap Z ptr) h :
  (size codes < fuel)%nat → is_Some (getFreeNetCode_loop fuel codes h).
Proof.
  revert codes h. induction fuel as [|fuel IH]; intros codes h Hsz; simpl; [lia|].
  set (next := (if decide (h < 0) then 0 else h) + 1).
  assert (Hnext : next = Z.max h 0 + 1) by (unfold next; case_decide; lia).
  destruct (codes !! next) as [q|] eqn:Hq; [|by eexists].
  rewrite <- (getFreeNetCode_loop_delete fuel codes next next) by lia.
  apply IH. rewrite map_size_delete_Some by eauto.
  pose proof (map_size_ne_0_lookup_2 codes next (mk_is_Some _ _ Hq)). lia.
Qed.

(** The code the scan returns is determined by the map and the hint. *)
Lemma least_free_unique (codes : gmap Z ptr) lo c1 c2 :
  lo < c1 → codes !! c1 = None → (∀ k, lo < k < c1 → is_Some (codes !! k)) →
  lo < c2 → codes !! c2 = None → (∀ k, lo < k < c2 → is_Some (codes !! k)) →
  c1 = c2.
Proof.
  intros H1 F1 A1 H2 F2 A2.
  destruct (Z.lt_trichotomy c1 c2) as [Hlt|[->|Hgt]]; [|done|].
  - destruct (A2 c1) as [x Hx]; [lia | congruence].
  - destruct (A1 c2) as [x Hx]; [lia | congruence].
Qed.

Lemma getFreeNetCode_spec (l : NETINFO_LIST) :
  ∃ c, getFreeNetCode l = Ok (c, with_hint c l) ∧
       Z.max (m_newNetCode l) 0 < c ∧
       m_netCodes l !! c = None ∧
       ∀ k, Z.max (m_newNetCode l) 0 < k < c → is_Some (m_netCodes l !! k).
Proof.
  unfold getFreeNetCode.
  destruct (getFreeNetCode_loop_total (S (size (m_netCodes l))) (m_netCodes l)
              (m_newNetCode l)) as [c Hc]; [lia|].
  exists c. rewrite Hc. split; [done|]. by apply getFreeNetCode_loop_sound in Hc.
Qed.

(** ** What [AppendNet] does, case by case *)

Lemma AppendNet_merge p q w :
  m_netNames (netinfo w) !! m_netname (mem w p) = Some q →
  AppendNet p w = Ok (merged p q w).
Proof. intros Hq. unfold AppendNet, GetNetItem_name. by rewrite Hq. Qed.

Lemma AppendNet_keep p w :
  m_netNames (netinfo w) !! m_netname (mem w p) = None →
  m_netCode (mem w p) = Z.of_nat (size (m_netCodes (netinfo w))) →
  AppendNet p w =
    match m_netCodes (netinfo w) !! m_netCode (mem w p) with
    | None => Ok (inserted p (m_netCode (mem w p)) (m_newNetCode (netinfo w)) w)
    | Some _ => Fault AssertionFailed
    end.
Proof.
  intros Hn Hc. unfold AppendNet, GetNetItem_name, GetNetItem_code. rewrite Hn.
  rewrite bool_decide_eq_false_2 by (intros ?; congruence).
  rewrite bool_decide_eq_false_2 by lia. cbn.
  rewrite Hn. destruct (m_netCodes (netinfo w) !! m_netCode (mem w p)) eqn:Hk; [done|].
  unfold inserted. by rewrite !std_insert_fresh.
Qed.

Lemma AppendNet_realloc p w :
  m_netNames (netinfo w) !! m_netname (mem w p) = None →
  m_netCode (mem w p) ≠ Z.of_nat (size (m_netCodes (netinfo w))) ∨ m_netCode (mem w p) < 0 →
  ∃ c, AppendNet p w = Ok (inserted p c c w) ∧
       Z.max (m_newNetCode (netinfo w)) 0 < c ∧
       m_netCodes (netinfo w) !! c = None ∧
       ∀ k, Z.max (m_newNetCode (netinfo w)) 0 < k < c →
            is_Some (m_netCodes (netinfo w) !! k).
Proof.
  intros Hn Hre.
  destruct (getFreeNetCode_spec (netinfo w)) as (c & Hg & Hlt & Hfree & Hfull).
  exists c. split; [|done].
  unfold AppendNet, GetNetItem_name, GetNetItem_code. rewrite Hn.
  assert (bool_decide (m_netCode (mem w p) ≠ Z.of_nat (size (m_netCodes (netinfo w))))
          || bool_decide (m_netCode (mem w p) < 0) = true) as ->.
  { apply orb_true_iff. destruct Hre; [left | right]; by apply bool_decide_eq_true_2. }
  rewrite Hg. cbn. rewrite Hn, Hfree.
  unfold inserted. by rewrite !std_insert_fresh.
Qed.

(** Every successful [AppendNet] is a merge or an insertion under a code that
    was free; in a non-empty registry that code is not 0. *)
Lemma AppendNet_Ok_inv p w w' :
  AppendNet p w = Ok w' →
  (∃ q, m_netNames (netinfo w) !! m_netname (mem w p) = Some q ∧ w' = merged p q w) ∨
  (m_netNames (netinfo w) !! m_netname (mem w p) = None ∧
   ∃ c h, w' = inserted p c h w ∧ m_netCodes (netinfo w) !! c = None ∧
          (c = Z.of_nat (size (m_netCodes (netinfo w))) ∨ 1 <= c) ∧
          m_newNetCode (netinfo w) <= h).
Proof.
  intros HA.
  destruct (m_netNames (netinfo w) !! m_netname (mem w p)) as [q|] eqn:Hn.
  - left. exists q. rewrite (AppendNet_merge _ _ _ Hn) in HA. by injection HA as <-.
  - right. split; [done|].
    destruct (decide (m_netCode (mem w p) = Z.of_nat (size (m_netCodes (netinfo w)))))
      as [Heq|Hne].
    + rewrite (AppendNet_keep _ _ Hn Heq) in HA.
      destruct (m_netCodes (netinfo w) !! m_netCode (mem w p)) eqn:Hk; [done|].
      injection HA as <-. eexists _, _. split; [done|]. split_and!; [done | by left | lia].
    + destruct (AppendNet_realloc p w Hn (or_introl Hne)) as (c & HA' & Hlt & Hfree & _).
      rewrite HA' in HA. injection HA as <-.
      eexists _, _. split; [done|]. split_and!; [done | right; lia | lia].
Qed.

(** [AppendNet] never exhausts the scan; it stops only on the assertion, when
    the record proposes the next slot as its code and that code is taken. *)
Lemma AppendNet_total p w :
  (∃ w', AppendNet p w = Ok w') ∨
  (AppendNet p w = Fault AssertionFailed ∧
   m_netNames (netinfo w) !! m_netname (mem w p) = None ∧
   m_netCode (mem w p) = Z.of_nat (size (m_netCodes (netinfo w))) ∧
   is_Some (m_netCodes (netinfo w) !! m_netCode (mem w p))).
Proof.
  destruct (m_netNames (netinfo w) !! m_netname (mem w p)) as [q|] eqn:Hn.
  { left. eexists. by apply AppendNet_merge. }
  destruct (decide (m_netCode (mem w p) = Z.of_nat (size (m_netCodes (netinfo w)))))
    as [Heq|Hne].
  - rewrite (AppendNet_keep _ _ Hn Heq).
    destruct (m_netCodes (netinfo w) !! m_netCode (mem w p)) eqn:Hk; [right | left]; eauto.
  - left. destruct (AppendNet_realloc p w Hn (or_introl Hne)) as (c & HA & _). eauto.
Qed.

(** ** The registry invariant: the two indices describe the same records *)

Lemma mem_insert_lookup (m : memory) p r x :
  (<[p := r]> m) x = if decide (x = p) then r else m x.
Proof.
  case_decide; subst; [apply fn_lookup_insert | by apply fn_lookup_insert_ne].
Qed.

Lemma set_netCode_same r : set_netCode (m_netCode r) r = r.
Proof. by destruct r. Qed.

Lemma set_isCurrent_same r : set_isCurrent (m_isCurrent r) r = r.
Proof. by destruct r. Qed.

Section consistency.
Variable w : world.
Hypothesis Hw : consistent w.

Lemma registered_codes p :
  registered w p → m_netCodes (netinfo w) !! m_netCode (mem w p) = Some p.
Proof.
  intros [[k Hk]|[n Hn]].
  - by destruct (codes_keyed w Hw k p Hk) as [<- _].
  - by destruct (names_keyed w Hw n p Hn) as [_ ?].
Qed.

Lemma registered_names p :
  registered w p → m_netNames (netinfo w) !! m_netname (mem w p) = Some p.
Proof.
  intros [[k Hk]|[n Hn]].
  - by destruct (codes_keyed w Hw k p Hk) as [_ ?].
  - by destruct (names_keyed w Hw n p Hn) as [<- _].
Qed.

Lemma unnamed_unregistered p :
  m_netNames (netinfo w) !! m_netname (mem w p) = None → ¬ registered w p.
Proof. intros Hn Hr. apply registered_names in Hr. congruence. Qed.

Lemma registered_same_code p q :
  registered w p → registered w q → m_netCode (mem w p) = m_netCode (mem w q) → p = q.
Proof.
  intros Hp%registered_codes Hq%registered_codes Heq. rewrite Heq in Hp. congruence.
Qed.

Lemma registered_same_name p q :
  registered w p → registered w q → m_netname (mem w p) = m_netname (mem w q) → p = q.
Proof.
  intros Hp%registered_names Hq%registered_names Heq. rewrite Heq in Hp. congruence.
Qed.

Lemma consistent_merged p q :
  m_netNames (netinfo w) !! m_netname (mem w p) = Some q → consistent (merged p q w).
Proof.
  intros Hq.
  assert (Hsame : ∀ x, registered w x → mem (merged p q w) x = mem w x).
  { intros x Hx. unfold merged; simpl. rewrite mem_insert_lookup.
    case_decide as Hxp; [|done]. subst x.
    apply registered_names in Hx. assert (q = p) as -> by congruence.
    apply set_netCode_same. }
  split.
  - intros k x Hk. cbn in Hk. rewrite Hsame by (left; eauto).
    by apply (codes_keyed w Hw).
  - intros n x Hn. cbn in Hn. rewrite Hsame by (right; eauto).
    by apply (names_keyed w Hw).
Qed.

Lemma consistent_inserted p c h :
  m_netNames (netinfo w) !! m_netname (mem w p) = None →
  m_netCodes (netinfo w) !! c = None →
  consistent (inserted p c h w).
Proof.
  intros Hn Hc. pose proof (unnamed_unregistered p Hn) as Hp.
  assert (Hother : ∀ x, registered w x → x ≠ p ∧ mem (inserted p c h w) x = mem w x).
  { intros x Hx. assert (x ≠ p) by (intros ->; done).
    split; [done|]. unfold inserted; simpl. rewrite mem_insert_lookup. by case_decide. }
  assert (Hself : mem (inserted p c h w) p = set_netCode c (mem w p)).
  { unfold inserted; simpl. rewrite mem_insert_lookup. by case_decide. }
  split.
  - intros k x Hx. cbn in Hx. rewrite lookup_insert in Hx. case_decide as Hk.
    + injection Hx as <-. subst k. rewrite Hself. cbn. by rewrite lookup_insert_eq.
    + destruct (Hother x) as [Hxp ->]; [left; eauto|].
      destruct (codes_keyed w Hw k x Hx) as [? Hnm]. split; [done|].
      cbn. rewrite lookup_insert_ne; [done | congruence].
  - intros n x Hx. cbn in Hx. rewrite lookup_insert in Hx. case_decide as Hk.
    + injection Hx as <-. subst n. rewrite Hself. cbn. by rewrite lookup_insert_eq.
    + destruct (Hother x) as [Hxp ->]; [right; eauto|].
      destruct (names_keyed w Hw n x Hx) as [? Hcd]. split; [done|].
      cbn. rewrite lookup_insert_ne; [done | congruence].
Qed.
End consistency.

Lemma AppendNet_consistent p w w' :
  consistent w → AppendNet p w = Ok w' → consistent w'.
Proof.
  intros Hw [(q & Hq & ->)|(Hn & c & h & -> & Hc & _)]%AppendNet_Ok_inv.
  - by apply consistent_merged.
  - by apply consistent_inserted.
Qed.

(** ** What [RemoveNet] does *)

Lemma RemoveNet_registered w p :
  consistent w → registered w p → RemoveNet p w = Ok (removed p w).
Proof.
  intros Hw Hp. unfold RemoveNet.
  destruct (list_find_holds (ascending (m_netCodes (netinfo w))) p (m_netCode (mem w p)))
    as [i ->].
  { apply elem_of_ascending. by apply registered_codes. }
  { intros k' Hk'%elem_of_ascending. by destruct (codes_keyed w Hw _ _ Hk'). }
  destruct (list_find_holds (map_to_list (m_netNames (netinfo w))) p (m_netname (mem w p)))
    as [j ->].
  { apply elem_of_map_to_list. by apply registered_names. }
  { intros n' Hn'%elem_of_map_to_list. by destruct (names_keyed w Hw _ _ Hn'). }
  done.
Qed.

Lemma RemoveNet_absent w p : ¬ registered w p → RemoveNet p w = Ok w.
Proof.
  intros Hp. unfold RemoveNet.
  rewrite (list_find_holds_None (ascending _)).
  2:{ intros k Hk%elem_of_ascending. apply Hp. left. eauto. }
  rewrite (list_find_holds_None (map_to_list _)).
  2:{ intros n Hn%elem_of_map_to_list. apply Hp. right. eauto. }
  by destruct w as [m []].
Qed.

Lemma consistent_removed w p :
  consistent w → registered w p → consistent (removed p w).
Proof.
  intros Hw Hp. split.
  - intros k x Hx. cbn in Hx. apply lookup_delete_Some in Hx as [Hne Hx].
    destruct (codes_keyed w Hw k x Hx) as [Hk Hn]. cbn. split; [done|].
    rewrite lookup_delete_ne; [done|]. intros Heq.
    assert (p = x) as -> by (apply (registered_same_name w Hw); [done | left; eauto | done]).
    congruence.
  - intros n x Hx. cbn in Hx. apply lookup_delete_Some in Hx as [Hne Hx].
    destruct (names_keyed w Hw n x Hx) as [Hn Hk]. cbn. split; [done|].
    rewrite lookup_delete_ne; [done|]. intros Heq.
    assert (p = x) as -> by (apply (registered_same_code w Hw); [done | right; eauto | done]).
    congruence.
Qed.

Lemma registered_or_not w p : registered w p ∨ ¬ registered w p.
Proof.
  destruct (list_find (holds p) (map_to_list (m_netCodes (netinfo w))))
    as [[i [k q]]|] eqn:Hc.
  { apply list_find_Some in Hc as (Hi & Hq & _). unfold holds in Hq; simpl in Hq; subst q.
    apply list_elem_of_lookup_2, elem_of_map_to_list in Hi. left. left. eauto. }
  destruct (list_find (holds p) (map_to_list (m_netNames (netinfo w))))
    as [[i [n q]]|] eqn:Hn.
  { apply list_find_Some in Hn as (Hi & Hq & _). unfold holds in Hq; simpl in Hq; subst q.
    apply list_elem_of_lookup_2, elem_of_map_to_list in Hi. left. right. eauto. }
  right. apply list_find_None in Hc. apply list_find_None in Hn.
  rewrite list.Forall_forall in Hc. rewrite list.Forall_forall in Hn.
  intros [[k Hk]|[n Hk]]; apply elem_of_map_to_list in Hk.
  - by apply (Hc _ Hk).
  - by apply (Hn _ Hk).
Qed.

Lemma RemoveNet_Ok_inv p w w' :
  consistent w → RemoveNet p w = Ok w' →
  (registered w p ∧ w' = removed p w) ∨ (¬ registered w p ∧ w' = w).
Proof.
  intros Hw HR. destruct (registered_or_not w p) as [Hp|Hp].
  - left. rewrite RemoveNet_registered in HR by done. by injection HR as <-.
  - right. rewrite RemoveNet_absent in HR by done. by injection HR as <-.
Qed.

Lemma RemoveNet_total p w : consistent w → ∃ w', RemoveNet p w = Ok w'.
Proof.
  intros Hw. destruct (registered_or_not w p) as [Hp|Hp].
  - eexists. by apply RemoveNet_registered.
  - eexists. by apply RemoveNet_absent.
Qed.

Lemma RemoveNet_consistent p w w' :
  consistent w → RemoveNet p w = Ok w' → consistent w'.
Proof.
  intros Hw HR. destruct (RemoveNet_Ok_inv p w w' Hw HR) as [[Hp ->]|[_ ->]]; [|done].
  by apply consistent_removed.
Qed.

(** ** What [RemoveUnusedNets] does *)

Section prune_loop.
Variable m : memory.

Lemma prune_fold_codes es acc k :
  m_netCodes (foldl (prune_step m) acc es).1 !! k =
    match m_netCodes acc.1 !! k with
    | Some p => Some p
    | None => (list_to_map (filter (current m) es) : gmap Z ptr) !! k
    end.
Proof.
  revert acc. induction es as [|[kc p] es IH]; intros [l c]; simpl.
  { rewrite lookup_empty. by destruct (m_netCodes l !! k). }
  rewrite IH, filter_cons.
  destruct (decide (current m (kc, p))) as [Hp|Hp]; unfold current in Hp; simpl in Hp.
  - rewrite Hp. simpl. rewrite lookup_std_insert, lookup_insert.
    destruct (m_netCodes l !! k); [done|]. by case_decide.
  - by destruct (m_isCurrent (m p)).
Qed.

Lemma prune_fold_names es acc n :
  m_netNames (foldl (prune_step m) acc es).1 !! n =
    match m_netNames acc.1 !! n with
    | Some p => Some p
    | None => (list_to_map (named m <$> filter (current m) es) : gmap string ptr) !! n
    end.
Proof.
  revert acc. induction es as [|[kc p] es IH]; intros [l c]; simpl.
  { rewrite lookup_empty. by destruct (m_netNames l !! n). }
  rewrite IH, filter_cons.
  destruct (decide (current m (kc, p))) as [Hp|Hp]; unfold current in Hp; simpl in Hp.
  - rewrite Hp. simpl. rewrite lookup_std_insert, lookup_insert.
    destruct (m_netNames l !! n); [done|]. unfold named. simpl. by case_decide.
  - by destruct (m_isCurrent (m p)).
Qed.

Lemma prune_fold_commit es acc :
  (foldl (prune_step m) acc es).2 =
    (fun log => log ++ (filter (fun e => ¬ current m e) es).*2) <$> acc.2.
Proof.
  revert acc. induction es as [|[kc p] es IH]; intros [l c]; simpl.
  { destruct c; simpl; [by rewrite app_nil_r | done]. }
  rewrite IH, filter_cons.
  destruct (decide (¬ current m (kc, p))) as [Hp|Hp]; unfold current in Hp; simpl in Hp.
  - destruct (m_isCurrent (m p)); [done|]. destruct c; simpl; [|done].
    by rewrite <- app_assoc.
  - destruct (m_isCurrent (m p)); [done|]. exfalso. apply Hp. discriminate.
Qed.

Lemma prune_fold_hint es acc :
  m_newNetCode (foldl (prune_step m) acc es).1 = m_newNetCode acc.1.
Proof.
  revert acc. induction es as [|[kc p] es IH]; intros [l c]; simpl; [done|].
  rewrite IH. unfold prune_step. by destruct (m_isCurrent (m p)).
Qed.
End prune_loop.

Lemma RemoveUnusedNets_unfold c w :
  RemoveUnusedNets c w =
    let r := foldl (prune_step (mem w))
               ({| m_netNames := ∅; m_netCodes := ∅;
                   m_newNetCode := m_newNetCode (netinfo w);
                   m_DisplayNetnamesDirty := m_DisplayNetnamesDirty (netinfo w) |}, c)
               (ascending (m_netCodes (netinfo w))) in
    ({| mem := mem w; netinfo := r.1 |}, r.2).
Proof. unfold RemoveUnusedNets. simpl. by destruct (foldl _ _ _). Qed.

Lemma RemoveUnusedNets_mem c w : mem (RemoveUnusedNets c w).1 = mem w.
Proof. by rewrite RemoveUnusedNets_unfold. Qed.

Lemma RemoveUnusedNets_hint c w :
  m_newNetCode (netinfo (RemoveUnusedNets c w).1) = m_newNetCode (netinfo w).
Proof. rewrite RemoveUnusedNets_unfold. simpl. by rewrite prune_fold_hint. Qed.

Lemma RemoveUnusedNets_codes c w k p :
  m_netCodes (netinfo (RemoveUnusedNets c w).1) !! k = Some p ↔
  m_netCodes (netinfo w) !! k = Some p ∧ m_isCurrent (mem w p) = true.
Proof.
  rewrite RemoveUnusedNets_unfold. simpl. rewrite prune_fold_codes. simpl.
  rewrite lookup_empty, <- elem_of_list_to_map'.
  - rewrite list_elem_of_filter, elem_of_ascending. unfold current. simpl. tauto.
  - intros p' [_ H1%elem_of_ascending]%list_elem_of_filter
              [_ H2%elem_of_ascending]%list_elem_of_filter. congruence.
Qed.

Lemma RemoveUnusedNets_names c w n p :
  consistent w →
  m_netNames (netinfo (RemoveUnusedNets c w).1) !! n = Some p ↔
  m_netNames (netinfo w) !! n = Some p ∧ m_isCurrent (mem w p) = true.
Proof.
  intros Hw. rewrite RemoveUnusedNets_unfold. simpl. rewrite prune_fold_names. simpl.
  rewrite lookup_empty.
  assert (Hin : ∀ q, (n, q) ∈ named (mem w) <$> filter (current (mem w))
                        (ascending (m_netCodes (netinfo w))) ↔
                     m_netNames (netinfo w) !! n = Some q ∧ m_isCurrent (mem w q) = true).
  { intros q. rewrite list_elem_of_fmap. split.
    - intros ([k q'] & [= -> ->] & [Hc Hk%elem_of_ascending]%list_elem_of_filter).
      split; [|done]. by destruct (codes_keyed w Hw _ _ Hk).
    - intros [Hn Hc]. destruct (names_keyed w Hw _ _ Hn) as [Hnm Hk].
      exists (m_netCode (mem w q), q). split; [by rewrite <- Hnm|].
      apply list_elem_of_filter. split; [done | by apply elem_of_ascending]. }
  rewrite <- elem_of_list_to_map'; [apply Hin|].
  intros p' [H1 _]%Hin [H2 _]%Hin. congruence.
Qed.

Lemma RemoveUnusedNets_commit c w :
  (RemoveUnusedNets c w).2 = (fun log => log ++ dropped w) <$> c.
Proof. rewrite RemoveUnusedNets_unfold. simpl. by rewrite prune_fold_commit. Qed.

Lemma elem_of_dropped w p :
  p ∈ dropped w ↔
  (∃ k, m_netCodes (netinfo w) !! k = Some p) ∧ m_isCurrent (mem w p) = false.
Proof.
  unfold dropped. rewrite list_elem_of_fmap. split.
  - intros ([k q] & -> & [Hc Hk%elem_of_ascending]%list_elem_of_filter).
    unfold current in Hc. simpl in *. split; [eauto|]. by destruct (m_isCurrent (mem w q)).
  - intros [[k Hk] Hc]. exists (k, p). split; [done|].
    apply list_elem_of_filter. split; [|by apply elem_of_ascending].
    unfold current. simpl. congruence.
Qed.

Lemma NoDup_dropped w : consistent w → NoDup (dropped w).
Proof.
  intros Hw. unfold dropped. apply NoDup_fmap_2_strong.
  - intros [k p] [k' p'] [_ H1%elem_of_ascending]%list_elem_of_filter
           [_ H2%elem_of_ascending]%list_elem_of_filter Heq.
    simpl in Heq. subst p'.
    destruct (codes_keyed w Hw _ _ H1) as [<- _].
    by destruct (codes_keyed w Hw _ _ H2) as [<- _].
  - apply list.NoDup_filter, NoDup_ascending.
Qed.

Lemma RemoveUnusedNets_consistent c w :
  consistent w → consistent (RemoveUnusedNets c w).1.
Proof.
  intros Hw. split.
  - intros k p [Hk Hc]%RemoveUnusedNets_codes. rewrite RemoveUnusedNets_mem.
    destruct (codes_keyed w Hw _ _ Hk) as [? Hn]. split; [done|].
    by apply RemoveUnusedNets_names.
  - intros n p [Hn Hc]%RemoveUnusedNets_names; [|done]. rewrite RemoveUnusedNets_mem.
    destruct (names_keyed w Hw _ _ Hn) as [? Hk]. split; [done|].
    by apply RemoveUnusedNets_codes.
Qed.

(** ** The set of used nets and the mapping built from it *)

Lemma elem_of_set_insert x s y : y ∈ set_insert x s ↔ y = x ∨ y ∈ s.
Proof.
  induction s as [|z s IH]; simpl.
  - rewrite list_elem_of_singleton, elem_of_nil. tauto.
  - repeat case_decide; subst; rewrite ?elem_of_cons, ?IH; tauto.
Qed.

Lemma set_insert_sorted x s :
  StronglySorted Z.lt s → StronglySorted Z.lt (set_insert x s).
Proof.
  induction 1 as [|z s Hs IH Hz]; simpl.
  - repeat constructor.
  - repeat case_decide.
    + constructor; [by constructor|]. constructor; [done|].
      rewrite list.Forall_forall in Hz. apply list.Forall_forall. intros y Hy%Hz. lia.
    + by constructor.
    + constructor; [done|]. apply list.Forall_forall. intros y Hy.
      apply elem_of_set_insert in Hy as [->|Hy]; [lia|].
      rewrite list.Forall_forall in Hz. by apply Hz.
Qed.

Lemma elem_of_insert_all xs s y : y ∈ insert_all xs s ↔ y ∈ xs ∨ y ∈ s.
Proof.
  unfold insert_all. revert s. induction xs as [|x xs IH]; intros s; simpl.
  - rewrite elem_of_nil. tauto.
  - rewrite IH, elem_of_set_insert, elem_of_cons. tauto.
Qed.

Lemma insert_all_sorted xs s :
  StronglySorted Z.lt s → StronglySorted Z.lt (insert_all xs s).
Proof.
  unfold insert_all. revert s. induction xs as [|x xs IH]; intros s Hs; simpl; [done|].
  by apply IH, set_insert_sorted.
Qed.

Lemma elem_of_insert_shapes ds s y :
  y ∈ foldl insert_shape s ds ↔ (PCB_SHAPE y ∈ ds ∧ 0 < y) ∨ y ∈ s.
Proof.
  revert s. induction ds as [|d ds IH]; intros s; simpl.
  - rewrite elem_of_nil. tauto.
  - rewrite IH, elem_of_cons. destruct d as [c|]; simpl.
    + case_decide; rewrite ?elem_of_set_insert.
      * split.
        -- intros [?|[->|?]]; [tauto | left; split; [by left | lia] | tauto].
        -- intros [[[[= ->]|?] ?]|?]; tauto.
      * split.
        -- tauto.
        -- intros [[[[= ->]|?] ?]|?]; [lia | tauto..].
    + split; [tauto | intros [[[?|?] ?]|?]; [done | tauto..]].
Qed.

Lemma insert_shapes_sorted ds s :
  StronglySorted Z.lt s → StronglySorted Z.lt (foldl insert_shape s ds).
Proof.
  revert s. induction ds as [|d ds IH]; intros s Hs; simpl; [done|].
  apply IH. destruct d as [c|]; simpl; [|done].
  case_decide; [by apply set_insert_sorted | done].
Qed.

Lemma elem_of_insert_pads fps s y :
  y ∈ foldl (fun acc fp => insert_all (Pads fp) acc) s fps ↔
  (∃ fp, fp ∈ fps ∧ y ∈ Pads fp) ∨ y ∈ s.
Proof.
  revert s. induction fps as [|fp fps IH]; intros s; simpl.
  - split; [by right | intros [(fp & Hfp%elem_of_nil & _)|?]; done].
  - rewrite IH, elem_of_insert_all. split.
    + intros [(fp' & ? & ?)|[?|?]]; [left; exists fp' | left; exists fp | by right];
        (split; [apply elem_of_cons; eauto | done]).
    + intros [(fp' & [->|?]%elem_of_cons & ?)|?]; eauto.
Qed.

Lemma insert_pads_sorted fps s :
  StronglySorted Z.lt s →
  StronglySorted Z.lt (foldl (fun acc fp => insert_all (Pads fp) acc) s fps).
Proof.
  revert s. induction fps as [|fp fps IH]; intros s Hs; simpl; [done|].
  by apply IH, insert_all_sorted.
Qed.

Lemma elem_of_used_nets b c : c ∈ used_nets b ↔ c = 0 ∨ referenced b c.
Proof.
  unfold used_nets, referenced.
  rewrite elem_of_insert_pads, elem_of_insert_shapes, !elem_of_insert_all. simpl.
  rewrite list_elem_of_singleton. tauto.
Qed.

Lemma used_nets_sorted b : StronglySorted Z.lt (used_nets b).
Proof.
  unfold used_nets.
  apply insert_pads_sorted, insert_shapes_sorted, insert_all_sorted, insert_all_sorted.
  simpl. repeat constructor.
Qed.

Lemma sorted_lookup_lt (l : list Z) i j x y :
  StronglySorted Z.lt l → l !! i = Some x → l !! j = Some y → (i < j)%nat → x < y.
Proof.
  intros Hl. revert i j. induction Hl as [|z l Hl IH Hz]; intros i j Hi Hj Hij; [done|].
  destruct j as [|j]; [lia|]. simpl in Hj. destruct i as [|i]; simpl in Hi.
  - injection Hi as ->. rewrite list.Forall_forall in Hz.
    apply Hz. by eapply list_elem_of_lookup_2.
  - eapply IH; eauto with lia.
Qed.

Lemma sorted_NoDup (l : list Z) : StronglySorted Z.lt l → NoDup l.
Proof.
  induction 1 as [|z l Hl IH Hz]; constructor; [|done].
  rewrite list.Forall_forall in Hz. intros Hin%Hz. lia.
Qed.

Lemma sorted_lookup_inj (l : list Z) i j x :
  StronglySorted Z.lt l → l !! i = Some x → l !! j = Some x → i = j.
Proof.
  intros Hl Hi Hj. destruct (Nat.lt_trichotomy i j) as [H|[H|H]]; [|done|].
  - pose proof (sorted_lookup_lt l i j x x Hl Hi Hj H). lia.
  - pose proof (sorted_lookup_lt l j i x x Hl Hj Hi H). lia.
Qed.

(** The numbering loop gives the element at position [i] the number
    [n + i]. *)
Lemma assign_fold_other (l : list Z) (m : gmap Z Z) n c :
  c ∉ l → (foldl assign (m, n) l).1 !! c = m !! c.
Proof.
  revert m n. induction l as [|x l IH]; intros m n Hc; simpl; [done|].
  apply not_elem_of_cons in Hc as [Hne Hc].
  unfold assign at 2. simpl. rewrite IH by done. by rewrite lookup_insert_ne.
Qed.

Lemma assign_fold_lookup (l : list Z) (m : gmap Z Z) n i c :
  NoDup l → l !! i = Some c → (foldl assign (m, n) l).1 !! c = Some (n + Z.of_nat i).
Proof.
  intros Hl. revert m n i. induction Hl as [|x l Hx Hl IH]; intros m n i Hi; [done|].
  simpl. unfold assign at 2. simpl. destruct i as [|i]; simpl in Hi.
  - injection Hi as ->. rewrite assign_fold_other by done.
    rewrite lookup_insert_eq. f_equal. lia.
  - rewrite (IH _ _ i) by done. f_equal. lia.
Qed.

Lemma Update_lookup b c v :
  Update b !! c = Some v ↔ ∃ i, used_nets b !! i = Some c ∧ v = Z.of_nat i.
Proof.
  unfold Update. pose proof (sorted_NoDup _ (used_nets_sorted b)) as Hnd. split.
  - intros Hv. destruct (decide (c ∈ used_nets b)) as [Hin|Hout].
    + apply list_elem_of_lookup_1 in Hin as [i Hi]. exists i. split; [done|].
      rewrite (assign_fold_lookup _ _ _ i) in Hv by done. injection Hv as <-. lia.
    + rewrite assign_fold_other in Hv by done. by rewrite lookup_empty in Hv.
  - intros (i & Hi & ->). rewrite (assign_fold_lookup _ _ _ i) by done. f_equal; lia.
Qed.

(** ** Deciding the invariant and membership on concrete registries *)

Lemma consistent_map_Forall w :
  consistent w ↔
  map_Forall (fun k p => m_netCode (mem w p) = k ∧
                m_netNames (netinfo w) !! m_netname (mem w p) = Some p)
             (m_netCodes (netinfo w)) ∧
  map_Forall (fun n p => m_netname (mem w p) = n ∧
                m_netCodes (netinfo w) !! m_netCode (mem w p) = Some p)
             (m_netNames (netinfo w)).
Proof.
  split.
  - intros [Hc Hn]. split; intros k p Hk; eauto.
  - intros [Hc Hn]. split; intros k p Hk; [by apply Hc | by apply Hn].
Qed.

#[global] Instance consistent_dec w : Decision (consistent w).
Proof.
  refine (cast_if (decide (
    map_Forall (fun k p => m_netCode (mem w p) = k ∧
                  m_netNames (netinfo w) !! m_netname (mem w p) = Some p)
               (m_netCodes (netinfo w)) ∧
    map_Forall (fun n p => m_netname (mem w p) = n ∧
                  m_netCodes (netinfo w) !! m_netCode (mem w p) = Some p)
               (m_netNames (netinfo w)))));
    by rewrite consistent_map_Forall.
Defined.

Lemma registered_Exists w p :
  registered w p ↔
  Exists (holds p) (map_to_list (m_netCodes (netinfo w))) ∨
  Exists (holds p) (map_to_list (m_netNames (netinfo w))).
Proof.
  rewrite !list.Exists_exists. unfold registered, holds. split.
  - intros [[k Hk]|[n Hn]]; [left; exists (k, p) | right; exists (n, p)];
      by rewrite elem_of_map_to_list.
  - intros [([k q] & Hk%elem_of_map_to_list & Hq)|([n q] & Hn%elem_of_map_to_list & Hq)];
      simpl in Hq; subst q; [left | right]; eauto.
Qed.

#[global] Instance registered_dec w p : Decision (registered w p).
Proof.
  refine (cast_if (decide (
    Exists (holds p) (map_to_list (m_netCodes (netinfo w))) ∨
    Exists (holds p) (map_to_list (m_netNames (netinfo w))))));
    by rewrite registered_Exists.
Defined.

(** ** Runs of operations and sample registries *)

Example sample_world_codes :
  map_to_list (m_netCodes (netinfo sample_world)) = [(2, 2%nat); (1, 1%nat); (0, 0%nat)] ∧
  m_newNetCode (netinfo sample_world) = 2.
Proof. by_computation. Qed.

Example sample_world_consistent : consistent sample_world.
Proof. decide_by_computation. Qed.

Example pruned_world_codes :
  map_to_list (m_netCodes (netinfo pruned_world)) = [(0, 0%nat)] ∧
  m_newNetCode (netinfo pruned_world) = 2.
Proof. by_computation. Qed.

(** * The properties of the design document *)

(** ** Appending a record whose name is already registered *)

(** C2: in a registry whose indices agree, appending a record [r] whose name
    is the name of a registered record [q] succeeds, leaves both indices as
    they were (so neither grows and [r] does not enter them) and overwrites
    the code of [r] with the code of [q]. *)
Theorem C2_append_existing_name_merges (w : world) (r q : ptr) :
  consistent w →
  registered w q →
  m_netname (mem w r) = m_netname (mem w q) →
  ∃ w', AppendNet r w = Ok w' ∧
        size (m_netCodes (netinfo w')) = size (m_netCodes (netinfo w)) ∧
        size (m_netNames (netinfo w')) = size (m_netNames (netinfo w)) ∧
        m_netCodes (netinfo w') = m_netCodes (netinfo w) ∧
        m_netNames (netinfo w') = m_netNames (netinfo w) ∧
        (¬ registered w r → ¬ registered w' r) ∧
        m_netCode (mem w' r) = m_netCode (mem w q).
Proof.
  intros Hw Hq Hname.
  pose proof (registered_names w Hw q Hq) as Hlook. rewrite <- Hname in Hlook.
  exists (merged r q w). split; [by apply AppendNet_merge|].
  split_and!; [done | done | done | done | by intros Hr | ].
  unfold merged. cbn [mem]. rewrite mem_insert_lookup. by rewrite decide_True.
Qed.

Lemma C2_append_existing_name_merges_witness :
  ∃ w', AppendNet 3%nat sample_world = Ok w' ∧
        size (m_netCodes (netinfo w')) = size (m_netCodes (netinfo sample_world)) ∧
        size (m_netNames (netinfo w')) = size (m_netNames (netinfo sample_world)) ∧
        m_netCodes (netinfo w') = m_netCodes (netinfo sample_world) ∧
        m_netNames (netinfo w') = m_netNames (netinfo sample_world) ∧
        (¬ registered sample_world 3%nat → ¬ registered w' 3%nat) ∧
        m_netCode (mem w' 3%nat) = m_netCode (mem sample_world 1%nat).
Proof.
  apply (C2_append_existing_name_merges sample_world 3%nat 1%nat).
  - decide_by_computation.
  - decide_by_computation.
  - vm_compute; reflexivity.
Defined.

(** C10: on that path nothing of the registry changes: the indices, the code
    hint and the stale flag are those of before (the flag is not set), and in
    memory only the code of the argument record is written. *)
Theorem C10_append_existing_name_frame (w : world) (r q : ptr) :
  consistent w →
  registered w q →
  m_netname (mem w r) = m_netname (mem w q) →
  ∃ w', AppendNet r w = Ok w' ∧
        netinfo w' = netinfo w ∧
        m_DisplayNetnamesDirty (netinfo w') = m_DisplayNetnamesDirty (netinfo w) ∧
        m_newNetCode (netinfo w') = m_newNetCode (netinfo w) ∧
        mem w' r = set_netCode (m_netCode (mem w q)) (mem w r) ∧
        ∀ x, x ≠ r → mem w' x = mem w x.
Proof.
  intros Hw Hq Hname.
  pose proof (registered_names w Hw q Hq) as Hlook. rewrite <- Hname in Hlook.
  exists (merged r q w). split; [by apply AppendNet_merge|].
  split_and!; [done | done | done | |].
  - unfold merged. cbn [mem]. rewrite mem_insert_lookup. by rewrite decide_True.
  - intros x Hx. unfold merged. cbn [mem]. rewrite mem_insert_lookup. by rewrite decide_False.
Qed.

Lemma C10_append_existing_name_frame_witness :
  ∃ w', AppendNet 3%nat sample_world = Ok w' ∧
        netinfo w' = netinfo sample_world ∧
        m_DisplayNetnamesDirty (netinfo w') = m_DisplayNetnamesDirty (netinfo sample_world) ∧
        m_newNetCode (netinfo w') = m_newNetCode (netinfo sample_world) ∧
        mem w' 3%nat = set_netCode (m_netCode (mem sample_world 1%nat)) (mem sample_world 3%nat) ∧
        ∀ x, x ≠ 3%nat → mem w' x = mem sample_world x.
Proof.
  apply (C10_append_existing_name_frame sample_world 3%nat 1%nat).
  - decide_by_computation.
  - decide_by_computation.
  - vm_compute; reflexivity.
Defined.

(** ** Removing a record that is not registered *)

(** C9: [RemoveNet] on a record that neither index holds returns without a
    fault and leaves the world as it was: both indices, the code hint and the
    stale flag. *)
Theorem C9_remove_absent_is_noop (w : world) (aNet : ptr) :
  ¬ registered w aNet →
  RemoveNet aNet w = Ok w.
Proof. apply RemoveNet_absent. Qed.

Lemma C9_remove_absent_is_noop_witness :
  RemoveNet 3%nat sample_world = Ok sample_world.
Proof.
  apply (C9_remove_absent_is_noop sample_world 3%nat).
  decide_by_computation.
Defined.

(** ** Allocation of a free code *)

(** [AppendNet] and [RemoveUnusedNets] never lower the hint; [RemoveNet] and
    [clear] are the operations that can. *)
Lemma AppendNet_hint p w w' :
  AppendNet p w = Ok w' → m_newNetCode (netinfo w) <= m_newNetCode (netinfo w').
Proof.
  intros [(q & _ & ->)|(_ & c & h & -> & _ & _ & Hh)]%AppendNet_Ok_inv; simpl; [lia|done].
Qed.

Lemma without_remove_or_clear_hint w w' :
  without_remove_or_clear w w' → m_newNetCode (netinfo w) <= m_newNetCode (netinfo w').
Proof.
  induction 1 as [w|p r w w' _ IH|p w w1 w' HA _ IH|p b w w' _ IH|aCommit w w' _ IH].
  - lia.
  - exact IH.
  - apply AppendNet_hint in HA. lia.
  - exact IH.
  - by rewrite RemoveUnusedNets_hint in IH.
Qed.

(** C5, as stated, fails twice.  After GND and VCC were pruned the hint is 2
    and code 2 is free, yet [getFreeNetCode] returns 3: the scan does not
    start at max(hint, 0).  And with that 3 stored as the hint, a [clear]
    and no [RemoveNet] at all makes the next call return 1: the codes
    returned are not increasing although nothing was removed. *)
Lemma C5_scan_start_counterexample :
  m_newNetCode (netinfo pruned_world) = 2 ∧
  getFreeNetCode (netinfo pruned_world) = Ok (3, with_hint 3 (netinfo pruned_world)) ∧
  first_free_from (Z.max (m_newNetCode (netinfo pruned_world)) 0)
    (m_netCodes (netinfo pruned_world)) 2 ∧
  ¬ first_free_from (Z.max (m_newNetCode (netinfo pruned_world)) 0)
      (m_netCodes (netinfo pruned_world)) 3 ∧
  (let w3 := {| mem := mem pruned_world;
                netinfo := with_hint 3 (netinfo pruned_world) |} in
   getFreeNetCode (netinfo (clear w3).1) = Ok (1, with_hint 1 (netinfo (clear w3).1))).
Proof.
  assert (Hhint : m_newNetCode (netinfo pruned_world) = 2) by by_computation.
  assert (Hfree : m_netCodes (netinfo pruned_world) !! 2 = None) by by_computation.
  split; [done|]. split; [by_computation|]. rewrite Hhint. split_and!.
  - split_and!; [lia | done | intros k Hk; lia].
  - intros (_ & _ & Hfull). destruct (Hfull 2) as [p Hp]; [lia | congruence].
  - by_computation.
Qed.

(** C5 (amended): [getFreeNetCode] always returns; the code it returns is the
    first free code at or above max(hint, 0) + 1, and it is stored as the new
    hint while the rest of the registry is kept.  A later call made with a
    hint that has not been lowered below that code returns a strictly larger
    code; this is the case after any run of record creations, markings,
    [AppendNet] and [RemoveUnusedNets] calls.  The two other operations do
    lower the hint: [clear] resets it to 0, whatever it was, and [RemoveNet]
    of a record the code map holds sets it to the minimum of the hint and
    the record's code minus 1. *)
Theorem C5_getFreeNetCode_scans_above_hint (l : NETINFO_LIST) :
  ∃ c, getFreeNetCode l = Ok (c, with_hint c l) ∧
       first_free_from (Z.max (m_newNetCode l) 0 + 1) (m_netCodes l) c ∧
       (∀ l2 c2 l2', c <= m_newNetCode l2 →
                     getFreeNetCode l2 = Ok (c2, l2') → c < c2) ∧
       (∀ w w' c2 l2', netinfo w = with_hint c l → without_remove_or_clear w w' →
                       getFreeNetCode (netinfo w') = Ok (c2, l2') → c < c2) ∧
       (∀ w, m_newNetCode (netinfo (clear w).1) = 0) ∧
       (∀ w p w', is_Some (list_find (holds p) (ascending (m_netCodes (netinfo w)))) →
                  RemoveNet p w = Ok w' →
                  m_newNetCode (netinfo w') =
                    Z.min (m_newNetCode (netinfo w)) (m_netCode (mem w p) - 1)).
Proof.
  destruct (getFreeNetCode_spec l) as (c & Hg & Hlt & Hfree & Hfull).
  exists c. split; [done|].
  assert (Hlater : ∀ l2 c2 l2', c <= m_newNetCode l2 →
                     getFreeNetCode l2 = Ok (c2, l2') → c < c2).
  { intros l2 c2 l2' Hhint Hg2.
    destruct (getFreeNetCode_spec l2) as (c2' & Hg2' & Hlt2 & _).
    rewrite Hg2' in Hg2. injection Hg2 as <- _. lia. }
  split_and!.
  - split_and!; [lia | done | intros k Hk; apply Hfull; lia].
  - exact Hlater.
  - intros w w' c2 l2' Hw Hrun. apply Hlater.
    apply without_remove_or_clear_hint in Hrun. by rewrite Hw in Hrun.
  - done.
  - intros w p w' [[i [k q]] Hfind] HR. unfold RemoveNet in HR. rewrite Hfind in HR.
    destruct (list_find (holds p) (map_to_list (m_netNames (netinfo w))))
      as [[j [n q']]|]; simpl in HR; injection HR as <-; done.
Qed.

(** ** Reuse of the code of a removed record *)

(** C6, as stated, fails for the unconnected net: it is registered with code
    0, once it is removed 0 is the lowest code not in use, and a record
    appended next with code -1 and a new name gets code 1. *)
Lemma C6_reserved_code_counterexample :
  consistent fresh_world ∧
  registered fresh_world 0%nat ∧
  m_netCode (mem fresh_world 0%nat) = 0 ∧
  m_netCode (mem fresh_world 1%nat) < 0 ∧
  m_netNames (netinfo fresh_world) !! m_netname (mem fresh_world 1%nat) = None ∧
  (w1 ← RemoveNet 0%nat fresh_world; w2 ← AppendNet 1%nat w1;
   Ok (m_netCodes (netinfo w1), m_netCode (mem w2 1%nat))) = Ok (∅, 1).
Proof.
  split_and!; [decide_by_computation | decide_by_computation | by_computation..].
Qed.

(** C6 (amended): when the removed record [r] has a code of at least 1 (it is
    not the unconnected net) and every code below it is in use, [RemoveNet]
    lowers the hint to min(hint, code - 1) and a record [r2] appended next
    with a negative code, whose name is not the name of a record that is
    still registered, is given exactly the code of [r]. *)
Theorem C6_removed_code_is_reused (w : world) (r r2 : ptr) :
  consistent w →
  registered w r →
  1 <= m_netCode (mem w r) →
  (∀ k, 0 <= k < m_netCode (mem w r) → is_Some (m_netCodes (netinfo w) !! k)) →
  m_netCode (mem w r2) < 0 →
  (∀ q, m_netNames (netinfo w) !! m_netname (mem w r2) = Some q → q = r) →
  ∃ w1 w2,
    RemoveNet r w = Ok w1 ∧
    m_newNetCode (netinfo w1) = Z.min (m_newNetCode (netinfo w)) (m_netCode (mem w r) - 1) ∧
    AppendNet r2 w1 = Ok w2 ∧
    m_netCode (mem w2 r2) = m_netCode (mem w r).
Proof.
  intros Hw Hr Hpos Hlow Hneg Hname.
  exists (removed r w). rewrite RemoveNet_registered by done.
  assert (Hfree : m_netNames (netinfo (removed r w)) !! m_netname (mem (removed r w) r2) = None).
  { cbn. destruct (m_netNames (netinfo w) !! m_netname (mem w r2)) as [q|] eqn:Hq.
    - pose proof (Hname q eq_refl) as ->.
      destruct (names_keyed w Hw _ _ Hq) as [<- _]. apply lookup_delete_eq.
    - apply lookup_delete_None. by right. }
  destruct (AppendNet_realloc r2 (removed r w) Hfree (or_intror Hneg))
    as (c & HA & Hlt & Hc & Hfull).
  exists (inserted r2 c c (removed r w)). split_and!; [done | done | done |].
  assert (c = m_netCode (mem w r)) as ->.
  { cbn in Hlt, Hc, Hfull.
    eapply (least_free_unique _ _ _ _ Hlt Hc Hfull).
    - lia.
    - apply lookup_delete_eq.
    - intros k Hk. rewrite lookup_delete_ne by lia. apply Hlow. lia. }
  unfold inserted. cbn [mem]. rewrite mem_insert_lookup. by rewrite decide_True.
Qed.

Lemma C6_removed_code_is_reused_witness :
  ∃ w1 w2,
    RemoveNet 1%nat sample_world = Ok w1 ∧
    m_newNetCode (netinfo w1) =
      Z.min (m_newNetCode (netinfo sample_world)) (m_netCode (mem sample_world 1%nat) - 1) ∧
    AppendNet 4%nat w1 = Ok w2 ∧
    m_netCode (mem w2 4%nat) = m_netCode (mem sample_world 1%nat).
Proof.
  apply (C6_removed_code_is_reused sample_world 1%nat 4%nat).
  - decide_by_computation.
  - decide_by_computation.
  - vm_compute; discriminate.
  - intros k Hk.
    assert (Hc : m_netCode (mem sample_world 1%nat) = 1) by by_computation.
    rewrite Hc in Hk. assert (k = 0) as -> by lia. vm_compute. eauto.
  - vm_compute; reflexivity.
  - intros q Hq. vm_compute in Hq. discriminate.
Defined.

(** ** Appending records with distinct names *)

Lemma inserted_mem p c h w x :
  mem (inserted p c h w) x = if decide (x = p) then set_netCode c (mem w p) else mem w x.
Proof. unfold inserted. cbn [mem]. apply mem_insert_lookup. Qed.

Lemma inserted_name p c h w x :
  m_netname (mem (inserted p c h w) x) = m_netname (mem w x).
Proof. rewrite inserted_mem. case_decide; by subst. Qed.

Lemma dense_append done w p :
  dense done w →
  (∀ q, q ∈ done → m_netname (mem w q) ≠ m_netname (mem w p)) →
  ∃ h, AppendNet p w = Ok (inserted p (Z.of_nat (length done)) h w) ∧
       dense (done ++ [p]) (inserted p (Z.of_nat (length done)) h w).
Proof.
  intros [Hsize Hcodes Hkeys Hhint Hnames] Hnew.
  set (n := Z.of_nat (length done)) in *.
  assert (Hfree : m_netNames (netinfo w) !! m_netname (mem w p) = None).
  { destruct (m_netNames (netinfo w) !! m_netname (mem w p)) as [q|] eqn:Hq; [|done].
    destruct (Hnames _ (mk_is_Some _ _ Hq)) as (q' & Hin & Heq). by apply Hnew in Hin. }
  assert (Hout : p ∉ done) by (intros Hin; by apply Hnew in Hin).
  assert (Hn : m_netCodes (netinfo w) !! n = None).
  { apply eq_None_not_Some. intros Hs%Hkeys. lia. }
  assert (Hfull : ∀ k, 0 <= k < n → is_Some (m_netCodes (netinfo w) !! k)).
  { intros k Hk. destruct (lookup_lt_is_Some_2 done (Z.to_nat k)) as [q Hq]; [lia|].
    apply Hcodes in Hq as [Hq _]. rewrite Z2Nat.id in Hq by lia. eauto. }
  assert (Hrun : ∃ h, AppendNet p w = Ok (inserted p n h w) ∧ 0 <= h <= n).
  { destruct (decide (m_netCode (mem w p) = Z.of_nat (size (m_netCodes (netinfo w)))))
      as [Heq|Hne].
    - exists (m_newNetCode (netinfo w)). rewrite AppendNet_keep by done.
      rewrite Heq, Hsize. fold n. rewrite Hn. split; [done | lia].
    - destruct (AppendNet_realloc p w Hfree (or_introl Hne)) as (c & HA & Hlt & Hc & Hall).
      assert (c = n) as ->.
      { eapply (least_free_unique _ _ _ _ Hlt Hc Hall); [lia | done |].
        intros k Hk. apply Hfull. lia. }
      exists n. split; [done | lia]. }
  destruct Hrun as (h & HA & Hh). exists h. split; [done|].
  split.
  - cbn. rewrite map_size_insert_None by done. rewrite length_app. simpl. lia.
  - intros i q [Hq|[Hi Hq]]%lookup_app_Some.
    + assert (q ≠ p) by (intros ->; apply Hout; by eapply list_elem_of_lookup_2).
      assert (Hlt := lookup_lt_Some _ _ _ Hq).
      rewrite inserted_mem, decide_False by done. cbn.
      rewrite lookup_insert_ne by lia. by apply Hcodes.
    + apply list_lookup_singleton_Some in Hq as [Hi' <-].
      assert (Z.of_nat i = n) as -> by lia.
      rewrite inserted_mem, decide_True by done. cbn. by rewrite lookup_insert_eq.
  - intros k. cbn. rewrite length_app. simpl. rewrite lookup_insert.
    case_decide; [lia|]. intros Hs%Hkeys. lia.
  - cbn. rewrite length_app. simpl. lia.
  - intros s Hs. cbn in Hs. rewrite lookup_insert in Hs. case_decide as Hsp.
    + exists p. split; [apply elem_of_app; right; by apply list_elem_of_singleton|].
      by rewrite inserted_name.
    + apply Hnames in Hs as (q & Hin & Hq). exists q. split; [apply elem_of_app; by left|].
      by rewrite inserted_name.
Qed.

Lemma dense_AppendNets ps done w :
  dense done w →
  NoDup ((fun p => m_netname (mem w p)) <$> (done ++ ps)) →
  ∃ w', AppendNets ps w = Ok w' ∧ dense (done ++ ps) w'.
Proof.
  revert done w. induction ps as [|p ps IH]; intros done w Hd Hnd; simpl.
  { exists w. by rewrite app_nil_r. }
  destruct (dense_append done w p Hd) as (h & -> & Hd').
  { rewrite fmap_app in Hnd. apply list.NoDup_app in Hnd as (_ & Hdisj & _).
    intros q Hq Heq. apply (Hdisj (m_netname (mem w q))).
    - apply list_elem_of_fmap. eauto.
    - rewrite Heq. apply list_elem_of_fmap. exists p. split; [done | by left]. }
  cbn. rewrite (cons_middle p done ps), app_assoc. apply IH; [done|].
  rewrite <- app_assoc, <- cons_middle.
  erewrite list_fmap_ext; [exact Hnd|]. intros i x _. exact (inserted_name _ _ _ _ x).
Qed.

Lemma NETINFO_LIST_new_dense p0 m :
  ∃ w0, NETINFO_LIST_new p0 m = Ok w0 ∧ dense [p0] w0 ∧
        ∀ x, m_netname (mem w0 x) = m_netname ((<[p0 := new_NETINFO_ITEM "" 0]> m) x).
Proof.
  unfold NETINFO_LIST_new. rewrite AppendNet_keep; cbn [mem netinfo m_netNames m_netCodes].
  2:{ apply lookup_empty. }
  2:{ rewrite mem_insert_lookup, decide_True by done. by rewrite map_size_empty. }
  rewrite lookup_empty. eexists. split; [done|]. split; [|intros x; apply inserted_name].
  rewrite mem_insert_lookup, decide_True by done. cbn [m_netCode new_NETINFO_ITEM].
  split.
  - cbn. rewrite map_size_insert_None by apply lookup_empty. by rewrite map_size_empty.
  - intros i q [-> <-]%list_lookup_singleton_Some.
    rewrite inserted_mem, decide_True by done. cbn. by rewrite lookup_insert_eq.
  - intros k. cbn. rewrite lookup_insert. case_decide; [lia|].
    rewrite lookup_empty. by intros [? ?].
  - cbn. lia.
  - intros s Hs. cbn in Hs. rewrite lookup_insert in Hs. case_decide as Hsp.
    + exists p0. split; [by apply list_elem_of_singleton|].
      rewrite inserted_name. exact Hsp.
    + rewrite lookup_empty in Hs. by destruct Hs.
Qed.

(** C1: the constructor followed by any series of [AppendNet] calls on
    records whose names differ from each other and from the empty name of the
    unconnected net succeeds; the records, in the order they were appended
    (the unconnected net first), hold the codes 0, 1, ..., n-1, whatever code
    each had proposed, and these are exactly the codes of the code index. *)
Theorem C1_appends_get_consecutive_codes (m : memory) (p0 : ptr) (ps : list ptr) :
  NoDup ((fun p => m_netname ((<[p0 := new_NETINFO_ITEM "" 0]> m) p)) <$> (p0 :: ps)) →
  ∃ w, (w0 ← NETINFO_LIST_new p0 m; AppendNets ps w0) = Ok w ∧
       (fun p => m_netCode (mem w p)) <$> (p0 :: ps)
         = seqZ 0 (Z.of_nat (length (p0 :: ps))) ∧
       (∀ i p, (p0 :: ps) !! i = Some p →
               m_netCodes (netinfo w) !! Z.of_nat i = Some p) ∧
       (∀ k, is_Some (m_netCodes (netinfo w) !! k) ↔
             0 <= k < Z.of_nat (length (p0 :: ps))).
Proof.
  intros Hnd.
  destruct (NETINFO_LIST_new_dense p0 m) as (w0 & -> & Hd0 & Hnames).
  destruct (dense_AppendNets ps [p0] w0 Hd0) as (w & HA & Hd).
  { erewrite list_fmap_ext; [exact Hnd|]. intros i x _. apply Hnames. }
  exists w. split; [done|]. change ([p0] ++ ps) with (p0 :: ps) in Hd.
  destruct Hd as [Hsize Hcodes Hkeys Hhint _]. split_and!.
  - apply list_eq. intros i. rewrite list_lookup_fmap.
    destruct ((p0 :: ps) !! i) as [p|] eqn:Hp; simpl.
    + destruct (Hcodes i p Hp) as [_ ->].
      rewrite lookup_seqZ_lt; [f_equal; lia|]. apply lookup_lt_Some in Hp.
      simpl in *. lia.
    + rewrite lookup_seqZ_ge; [done|]. apply lookup_ge_None in Hp. simpl in *. lia.
  - intros i p Hp. by apply Hcodes.
  - intros k. split; [apply Hkeys|]. intros Hk.
    destruct (lookup_lt_is_Some_2 (p0 :: ps) (Z.to_nat k)) as [q Hq]; [simpl in *; lia|].
    apply Hcodes in Hq as [Hq _]. rewrite Z2Nat.id in Hq by lia. eauto.
Qed.

Lemma C1_appends_get_consecutive_codes_witness :
  ∃ w, (w0 ← NETINFO_LIST_new 0%nat sample_memory; AppendNets [1; 2; 4; 5]%nat w0) = Ok w ∧
       (fun p => m_netCode (mem w p)) <$> [0; 1; 2; 4; 5]%nat
         = seqZ 0 (Z.of_nat (length [0; 1; 2; 4; 5]%nat)) ∧
       (∀ i p, [0; 1; 2; 4; 5]%nat !! i = Some p →
               m_netCodes (netinfo w) !! Z.of_nat i = Some p) ∧
       (∀ k, is_Some (m_netCodes (netinfo w) !! k) ↔
             0 <= k < Z.of_nat (length [0; 1; 2; 4; 5]%nat)).
Proof.
  apply (C1_appends_get_consecutive_codes sample_memory 0%nat [1; 2; 4; 5]%nat).
  decide_by_computation.
Defined.

(** ** Pruning the records that are no longer current *)

(** C3: in a registry whose indices agree, [RemoveUnusedNets] keeps exactly
    the current records: a registered record that is current stays reachable
    under its code and under its name, one that is not current is in neither
    index afterwards, the two indices hold the same records, and nothing new
    enters them.  With a commit, the notifications sent are the dropped
    records, each exactly once; without one nothing is recorded. *)
Theorem C3_prune_partitions_by_isCurrent (aCommit : option BOARD_COMMIT) (w : world) :
  consistent w →
  (∀ p, registered w p → m_isCurrent (mem w p) = true →
        m_netCodes (netinfo (RemoveUnusedNets aCommit w).1) !! m_netCode (mem w p) = Some p ∧
        m_netNames (netinfo (RemoveUnusedNets aCommit w).1) !! m_netname (mem w p) = Some p) ∧
  (∀ p, registered w p → m_isCurrent (mem w p) = false →
        ¬ registered (RemoveUnusedNets aCommit w).1 p) ∧
  (∀ p, (∃ k, m_netCodes (netinfo (RemoveUnusedNets aCommit w).1) !! k = Some p) ↔
        (∃ n, m_netNames (netinfo (RemoveUnusedNets aCommit w).1) !! n = Some p)) ∧
  (∀ p, registered (RemoveUnusedNets aCommit w).1 p → registered w p) ∧
  mem (RemoveUnusedNets aCommit w).1 = mem w ∧
  (RemoveUnusedNets aCommit w).2 = (fun log => log ++ dropped w) <$> aCommit ∧
  NoDup (dropped w) ∧
  (∀ p, p ∈ dropped w ↔ registered w p ∧ m_isCurrent (mem w p) = false).
Proof.
  intros Hw. pose proof (RemoveUnusedNets_consistent aCommit w Hw) as Hw'.
  split_and!.
  - intros p Hp Hc. split.
    + apply RemoveUnusedNets_codes. split; [by apply registered_codes | done].
    + apply RemoveUnusedNets_names; [done|]. split; [by apply registered_names | done].
  - intros p Hp Hc [[k [_ Hk]%RemoveUnusedNets_codes]|[n [_ Hn]%RemoveUnusedNets_names]];
      [congruence | congruence | done].
  - intros p. split.
    + intros [k Hk]. destruct (codes_keyed _ Hw' _ _ Hk) as [_ Hn]. eauto.
    + intros [n Hn]. destruct (names_keyed _ Hw' _ _ Hn) as [_ Hk]. eauto.
  - intros p [[k [Hk _]%RemoveUnusedNets_codes]|[n [Hn _]%RemoveUnusedNets_names]];
      [left; eauto | right; eauto | done].
  - apply RemoveUnusedNets_mem.
  - apply RemoveUnusedNets_commit.
  - by apply NoDup_dropped.
  - intros p. rewrite elem_of_dropped. split.
    + intros [Hk Hc]. split; [by left | done].
    + intros [Hp Hc]. split; [|done]. exists (m_netCode (mem w p)). by apply registered_codes.
Qed.

Lemma C3_prune_partitions_by_isCurrent_witness :
  (∀ p, registered unplugged_world p → m_isCurrent (mem unplugged_world p) = true →
        m_netCodes (netinfo (RemoveUnusedNets (Some []) unplugged_world).1)
          !! m_netCode (mem unplugged_world p) = Some p ∧
        m_netNames (netinfo (RemoveUnusedNets (Some []) unplugged_world).1)
          !! m_netname (mem unplugged_world p) = Some p) ∧
  (∀ p, registered unplugged_world p → m_isCurrent (mem unplugged_world p) = false →
        ¬ registered (RemoveUnusedNets (Some []) unplugged_world).1 p) ∧
  (∀ p, (∃ k, m_netCodes (netinfo (RemoveUnusedNets (Some []) unplugged_world).1) !! k
                = Some p) ↔
        (∃ n, m_netNames (netinfo (RemoveUnusedNets (Some []) unplugged_world).1) !! n
                = Some p)) ∧
  (∀ p, registered (RemoveUnusedNets (Some []) unplugged_world).1 p →
        registered unplugged_world p) ∧
  mem (RemoveUnusedNets (Some []) unplugged_world).1 = mem unplugged_world ∧
  (RemoveUnusedNets (Some []) unplugged_world).2 =
    (fun log => log ++ dropped unplugged_world) <$> Some [] ∧
  NoDup (dropped unplugged_world) ∧
  (∀ p, p ∈ dropped unplugged_world ↔
        registered unplugged_world p ∧ m_isCurrent (mem unplugged_world p) = false).
Proof.
  apply (C3_prune_partitions_by_isCurrent (Some []) unplugged_world).
  decide_by_computation.
Defined.

Example prune_unplugged :
  dropped unplugged_world = [1%nat] ∧
  (RemoveUnusedNets (Some []) unplugged_world).2 = Some [1%nat] ∧
  map_to_list (m_netNames (netinfo (RemoveUnusedNets (Some []) unplugged_world).1))
    = [("VCC", 2%nat); ("", 0%nat)] ∧
  map_to_list (m_netCodes (netinfo (RemoveUnusedNets (Some []) unplugged_world).1))
    = [(2, 2%nat); (0, 0%nat)].
Proof. by_computation. Qed.

(** ** The compacted numbering *)

(** C4: the code departs from the invariant, and from its own comment
    "Be sure that the unconnected gets 0 and is mapped as 0".  The codes of
    zones, tracks and pads enter the set unguarded (only those of shapes are
    tested with [> 0]); on the board whose only item is a track of code -1
    the set is {-1, 0}, the mapping [Update] builds is exactly -1 to 0 and
    0 to 1, and [Translate] sends code 0 to 1. *)
Lemma C4_update_on_negative_track_code :
  used_nets board_with_negative_code = [-1; 0] ∧
  Update board_with_negative_code = {[-1 := 0; 0 := 1]} ∧
  Update board_with_negative_code !! 0 = Some 1 ∧
  Update board_with_negative_code !! 0 ≠ Some 0 ∧
  Translate (Update board_with_negative_code) 0 = 1.
Proof.
  split_and!; [by_computation | by_computation | by_computation
              | vm_compute; discriminate | by_computation].
Qed.

Lemma Update_dom b : dom (Update b) = list_to_set (used_nets b).
Proof.
  apply set_eq. intros c. rewrite elem_of_dom, elem_of_list_to_set. split.
  - intros [v (i & Hi & _)%Update_lookup]. by eapply list_elem_of_lookup_2.
  - intros [i Hi]%list_elem_of_lookup_1. exists (Z.of_nat i). apply Update_lookup. eauto.
Qed.

(** What [Update] does guarantee, for any board: the mapping is defined
    exactly on code 0 and the referenced codes; with k the number of these
    codes, the numbers it assigns are exactly 0..k-1, in ascending order of
    the codes.  Code 0 is numbered 0 whenever no referenced code is
    negative. *)
Theorem Update_numbers_are_compact (b : BOARD) :
  (∀ c, is_Some (Update b !! c) ↔ c = 0 ∨ referenced b c) ∧
  (∀ v, (∃ c, Update b !! c = Some v) ↔ 0 <= v < Z.of_nat (size (Update b))) ∧
  (∀ c1 c2 v1 v2, Update b !! c1 = Some v1 → Update b !! c2 = Some v2 →
                  (c1 < c2 ↔ v1 < v2)) ∧
  ((∀ c, referenced b c → 0 <= c) → Update b !! 0 = Some 0).
Proof.
  pose proof (used_nets_sorted b) as Hs. pose proof (sorted_NoDup _ Hs) as Hnd.
  assert (Hsize : size (Update b) = length (used_nets b)).
  { rewrite <- size_dom, Update_dom. by apply size_list_to_set. }
  split_and!.
  - intros c. rewrite <- elem_of_used_nets. split.
    + intros [v (i & Hi & _)%Update_lookup]. by eapply list_elem_of_lookup_2.
    + intros [i Hi]%list_elem_of_lookup_1. exists (Z.of_nat i). apply Update_lookup. eauto.
  - intros v. rewrite Hsize. split.
    + intros [c (i & Hi & ->)%Update_lookup]. apply lookup_lt_Some in Hi. lia.
    + intros Hv. destruct (lookup_lt_is_Some_2 (used_nets b) (Z.to_nat v)) as [c Hc]; [lia|].
      exists c. apply Update_lookup. exists (Z.to_nat v). split; [done | lia].
  - intros c1 c2 v1 v2 (i & Hi & ->)%Update_lookup (j & Hj & ->)%Update_lookup. split.
    + intros Hlt. destruct (Nat.lt_trichotomy i j) as [H|[->|H]]; [lia | |].
      * rewrite Hi in Hj. injection Hj as ->. lia.
      * pose proof (sorted_lookup_lt _ _ _ _ _ Hs Hj Hi H). lia.
    + intros Hlt. apply (sorted_lookup_lt (used_nets b) i j); [done..|lia].
  - intros Hpos. apply Update_lookup. exists 0%nat. split; [|done].
    destruct (used_nets b) as [|x l] eqn:Hl.
    { assert (0 ∈ used_nets b) as Hin by (apply elem_of_used_nets; by left).
      rewrite Hl in Hin. by apply elem_of_nil in Hin. }
    simpl. f_equal.
    assert (Hx : 0 <= x).
    { assert (x ∈ used_nets b) as [->|Hx]%elem_of_used_nets by (rewrite Hl; by left);
        [done | by apply Hpos]. }
    assert (0 ∈ x :: l) as [?|Hin]%elem_of_cons
      by (rewrite <- Hl; apply elem_of_used_nets; by left); [done|].
    apply StronglySorted_inv in Hs as [_ Hall].
    rewrite list.Forall_forall in Hall. apply Hall in Hin. lia.
Qed.

(** ** The documented example and [Translate] *)

(** C8: on a board whose referenced codes, with code 0, are 0, 5 and 7,
    [Update] yields exactly the mapping 0 to 0, 5 to 1, 7 to 2, so that
    [Translate] sends 5 to 1 and leaves 99 alone; on any board [Translate]
    returns the number [Update] assigned for a code that took part in it and
    the code itself for any other. *)
Theorem C8_update_example_and_translate (b : BOARD) :
  (∀ c, c = 0 ∨ referenced b c ↔ c ∈ [0; 5; 7]) →
  Update b = {[0 := 0; 5 := 1; 7 := 2]} ∧
  Translate (Update b) 5 = 1 ∧
  Translate (Update b) 99 = 99 ∧
  (∀ b' c, c = 0 ∨ referenced b' c → Update b' !! c = Some (Translate (Update b') c)) ∧
  (∀ b' c, ¬ (c = 0 ∨ referenced b' c) → Translate (Update b') c = c).
Proof.
  intros Href.
  assert (Hnets : used_nets b = [0; 5; 7]).
  { apply (StronglySorted_unique_strong Z.lt).
    - intros; lia.
    - apply used_nets_sorted.
    - repeat constructor; lia.
    - apply NoDup_Permutation.
      + apply sorted_NoDup, used_nets_sorted.
      + apply sorted_NoDup. repeat constructor; lia.
      + intros c. by rewrite elem_of_used_nets. }
  assert (HU : Update b = {[0 := 0; 5 := 1; 7 := 2]}).
  { unfold Update. rewrite Hnets. by_computation. }
  split_and!.
  - done.
  - rewrite HU. by_computation.
  - rewrite HU. by_computation.
  - intros b' c Hc. apply elem_of_used_nets, list_elem_of_lookup_1 in Hc as [i Hi].
    assert (Hv : Update b' !! c = Some (Z.of_nat i)) by (apply Update_lookup; eauto).
    unfold Translate. by rewrite Hv.
  - intros b' c Hc. unfold Translate.
    destruct (Update b' !! c) as [v|] eqn:Hv; [|done].
    exfalso. apply Hc, elem_of_used_nets.
    apply Update_lookup in Hv as (i & Hi & _). by eapply list_elem_of_lookup_2.
Qed.

Lemma C8_update_example_and_translate_witness :
  Update sample_board = {[0 := 0; 5 := 1; 7 := 2]} ∧
  Translate (Update sample_board) 5 = 1 ∧
  Translate (Update sample_board) 99 = 99 ∧
  (∀ b' c, c = 0 ∨ referenced b' c → Update b' !! c = Some (Translate (Update b') c)) ∧
  (∀ b' c, ¬ (c = 0 ∨ referenced b' c) → Translate (Update b') c = c).
Proof.
  apply (C8_update_example_and_translate sample_board).
  intros c. rewrite <- elem_of_used_nets.
  assert (used_nets sample_board = [0; 5; 7]) as -> by reflexivity. reflexivity.
Defined.

(** ** The unconnected net and the uniqueness of codes and names *)

Lemma NETINFO_LIST_new_eq p0 m :
  NETINFO_LIST_new p0 m =
    Ok (inserted p0 0 0
          {| mem := <[p0 := new_NETINFO_ITEM "" 0]> m;
             netinfo := {| m_netNames := ∅; m_netCodes := ∅; m_newNetCode := 0;
                           m_DisplayNetnamesDirty := false |} |}).
Proof.
  unfold NETINFO_LIST_new. rewrite AppendNet_keep; cbn [mem netinfo m_netNames m_netCodes].
  - rewrite lookup_empty. by rewrite mem_insert_lookup, decide_True.
  - apply lookup_empty.
  - rewrite mem_insert_lookup, decide_True by done. by rewrite map_size_empty.
Qed.

Lemma NETINFO_LIST_new_grounded p0 m w0 :
  NETINFO_LIST_new p0 m = Ok w0 → grounded w0.
Proof.
  rewrite NETINFO_LIST_new_eq. intros [= <-]. split.
  - apply consistent_inserted; [|apply lookup_empty..].
    split; intros k p Hk; cbn in Hk; by rewrite lookup_empty in Hk.
  - exists p0. split.
    + unfold unconnected. cbn. by rewrite lookup_insert_eq.
    + rewrite inserted_name. cbn [mem]. by rewrite mem_insert_lookup, decide_True.
Qed.

Lemma merged_name p q w x : m_netname (mem (merged p q w) x) = m_netname (mem w x).
Proof. unfold merged. cbn [mem]. rewrite mem_insert_lookup. case_decide; by subst. Qed.

Lemma consistent_create p r w :
  consistent w → ¬ registered w p → consistent (create p r w).
Proof.
  intros Hw Hp.
  assert (Hsame : ∀ x, registered w x → mem (create p r w) x = mem w x).
  { intros x Hx. unfold create. cbn [mem]. rewrite mem_insert_lookup.
    case_decide; [by subst|done]. }
  split.
  - intros k x Hk. cbn in Hk. rewrite Hsame by (left; eauto). by apply (codes_keyed w Hw).
  - intros n x Hn. cbn in Hn. rewrite Hsame by (right; eauto). by apply (names_keyed w Hw).
Qed.

Lemma SetIsCurrent_fields p b w x :
  m_netCode (mem (SetIsCurrent p b w) x) = m_netCode (mem w x) ∧
  m_netname (mem (SetIsCurrent p b w) x) = m_netname (mem w x).
Proof. unfold SetIsCurrent. cbn [mem]. rewrite mem_insert_lookup. case_decide; by subst. Qed.

Lemma consistent_SetIsCurrent p b w : consistent w → consistent (SetIsCurrent p b w).
Proof.
  intros Hw. split.
  - intros k x Hk. destruct (SetIsCurrent_fields p b w x) as [-> ->].
    by apply (codes_keyed w Hw).
  - intros n x Hn. destruct (SetIsCurrent_fields p b w x) as [-> ->].
    by apply (names_keyed w Hw).
Qed.

Lemma step_grounded w w' : grounded w → step w w' → grounded w'.
Proof.
  intros [Hw (p0 & Hz & Hname)] Hstep. unfold unconnected in Hz.
  assert (Hreg : registered w p0) by (left; eauto).
  destruct Hstep as [p r w Hp|p w w' HA|p w w' Hp HR|p b w|aCommit w Hcur].
  - split; [by apply consistent_create|]. exists p0. split; [done|].
    unfold create. cbn [mem]. rewrite mem_insert_lookup.
    case_decide; [by subst|done].
  - split; [by eapply AppendNet_consistent|].
    apply AppendNet_Ok_inv in HA as [(q & _ & ->)|(_ & c & h & -> & Hc & _)].
    + exists p0. split; [done | by rewrite merged_name].
    + exists p0. split; [|by rewrite inserted_name].
      unfold unconnected. cbn. rewrite lookup_insert_ne; [done | congruence].
  - split; [by eapply RemoveNet_consistent|].
    apply RemoveNet_Ok_inv in HR as [[Hr ->]|[_ ->]]; [|eauto|done].
    exists p0. split; [|done]. unfold unconnected. cbn.
    rewrite lookup_delete_ne; [done|]. intros Heq. apply Hp. unfold unconnected.
    rewrite <- Heq. by apply registered_codes.
  - split; [by apply consistent_SetIsCurrent|]. exists p0. split; [done|].
    by destruct (SetIsCurrent_fields p b w p0) as [_ ->].
  - split; [by apply RemoveUnusedNets_consistent|]. exists p0. split.
    + apply RemoveUnusedNets_codes. split; [done | by apply Hcur].
    + by rewrite RemoveUnusedNets_mem.
Qed.

Lemma reachable_grounded w : reachable w → grounded w.
Proof.
  induction 1 as [p0 m w0 Hnew|w w' _ IH Hstep].
  - by eapply NETINFO_LIST_new_grounded.
  - by eapply step_grounded.
Qed.

Lemma grounded_one_unconnected w : grounded w → one_unconnected w.
Proof.
  intros [Hw (p0 & Hz & Hname)]. unfold unconnected in Hz. exists p0.
  assert (Hreg : registered w p0) by (left; eauto).
  split_and!; [done | by destruct (codes_keyed w Hw _ _ Hz) | done |].
  intros q Hq Hq0. apply (registered_codes w Hw) in Hq. rewrite Hq0 in Hq. congruence.
Qed.

Lemma consistent_pairs_unique w : consistent w → pairs_unique w.
Proof.
  intros Hw p q Hp Hq [= Hc _]. by apply (registered_same_code w Hw).
Qed.

(** C7, as stated, fails: [RemoveUnusedNets] has no regard for code 0.  Once
    the unconnected net of a fresh registry is marked as not current, pruning
    drops it and no record with code 0 is left. *)
Lemma C7_prune_drops_unconnected_counterexample :
  NETINFO_LIST_new 0%nat sample_memory = Ok fresh_world ∧
  one_unconnected (SetIsCurrent 0%nat false fresh_world) ∧
  m_netCodes (netinfo (RemoveUnusedNets None (SetIsCurrent 0%nat false fresh_world)).1) = ∅ ∧
  ¬ one_unconnected (RemoveUnusedNets None (SetIsCurrent 0%nat false fresh_world)).1.
Proof.
  assert (Hnew : NETINFO_LIST_new 0%nat sample_memory = Ok fresh_world) by by_computation.
  assert (Hcodes : m_netCodes (netinfo
            (RemoveUnusedNets None (SetIsCurrent 0%nat false fresh_world)).1) = ∅)
    by by_computation.
  assert (Hnames : m_netNames (netinfo
            (RemoveUnusedNets None (SetIsCurrent 0%nat false fresh_world)).1) = ∅)
    by by_computation.
  split_and!; [done | | done |].
  - apply grounded_one_unconnected. split.
    + apply consistent_SetIsCurrent. by eapply NETINFO_LIST_new_grounded.
    + exists 0%nat. split; by_computation.
  - intros (p0 & [[k Hk]|[n Hn]] & _).
    + rewrite Hcodes in Hk. by rewrite lookup_empty in Hk.
    + rewrite Hnames in Hn. by rewrite lookup_empty in Hn.
Qed.

(** C7 (amended): in every world reached from the constructor by creating,
    appending, marking and removing records other than the unconnected net,
    and by pruning while the unconnected net is current, exactly one
    registered record has code 0, its name is empty, no two registered
    records share a (code, name) pair, and the two indices agree. *)
Theorem C7_unconnected_net_and_unique_pairs (w : world) :
  reachable w →
  one_unconnected w ∧ pairs_unique w ∧ consistent w.
Proof.
  intros Hr%reachable_grounded. split_and!.
  - by apply grounded_one_unconnected.
  - by apply consistent_pairs_unique, grounded_consistent.
  - by apply grounded_consistent.
Qed.

Lemma C7_unconnected_net_and_unique_pairs_witness :
  one_unconnected pruned_world ∧ pairs_unique pruned_world ∧ consistent pruned_world.
Proof.
  apply (C7_unconnected_net_and_unique_pairs pruned_world).
  apply (reach_step orphaned_world); [|apply step_prune].
  - apply (reach_step (SetIsCurrent 1%nat false sample_world)); [|apply step_mark].
    apply (reach_step sample_world); [|apply step_mark].
    apply (reach_step (world_of (AppendNet 1%nat fresh_world))).
    + apply (reach_step fresh_world).
      * apply (reach_new 0%nat sample_memory). vm_compute; reflexivity.
      * apply (step_append 1%nat). vm_compute; reflexivity.
    + apply (step_append 2%nat). vm_compute; reflexivity.
  - intros p Hp. assert (p = 0%nat) as ->.
    { unfold unconnected in Hp. vm_compute in Hp. congruence. }
    vm_compute; reflexivity.
Defined.

(** * Further properties of the operations *)

(** ** [AppendNet] and the lookups *)

(** X1: a record with a new name that [AppendNet] accepts is found afterwards
    by its name and by the code it now holds; both maps have grown by one
    entry, the stale flag is set, every other lookup answers as before and no
    other record is written. *)
Theorem X1_AppendNet_then_GetNetItem (p : ptr) (w w' : world) :
  m_netNames (netinfo w) !! m_netname (mem w p) = None →
  AppendNet p w = Ok w' →
  GetNetItem_name (netinfo w') (m_netname (mem w' p)) = Some p ∧
  GetNetItem_code (netinfo w') (m_netCode (mem w' p)) = Some p ∧
  m_netname (mem w' p) = m_netname (mem w p) ∧
  m_DisplayNetnamesDirty (netinfo w') = true ∧
  size (m_netNames (netinfo w')) = S (size (m_netNames (netinfo w))) ∧
  size (m_netCodes (netinfo w')) = S (size (m_netCodes (netinfo w))) ∧
  (∀ n, n ≠ m_netname (mem w p) →
        GetNetItem_name (netinfo w') n = GetNetItem_name (netinfo w) n) ∧
  (∀ k, k ≠ m_netCode (mem w' p) →
        GetNetItem_code (netinfo w') k = GetNetItem_code (netinfo w) k) ∧
  (∀ x, x ≠ p → mem w' x = mem w x).
Proof.
  intros Hn [(q & Hq & _)|(_ & c & h & -> & Hc & _)]%AppendNet_Ok_inv; [congruence|].
  assert (Hp : mem (inserted p c h w) p = set_netCode c (mem w p))
    by (by rewrite inserted_mem, decide_True).
  unfold GetNetItem_name, GetNetItem_code. rewrite Hp. cbn.
  split_and!.
  - apply lookup_insert_eq.
  - apply lookup_insert_eq.
  - done.
  - done.
  - by apply map_size_insert_None.
  - by apply map_size_insert_None.
  - intros n Hne. by apply lookup_insert_ne.
  - intros k Hne. by apply lookup_insert_ne.
  - intros x Hx. rewrite mem_insert_lookup. by rewrite decide_False.
Qed.

Lemma X1_AppendNet_then_GetNetItem_witness :
  GetNetItem_name (netinfo larger_world) (m_netname (mem larger_world 4%nat)) = Some 4%nat ∧
  GetNetItem_code (netinfo larger_world) (m_netCode (mem larger_world 4%nat)) = Some 4%nat ∧
  m_netname (mem larger_world 4%nat) = m_netname (mem sample_world 4%nat) ∧
  m_DisplayNetnamesDirty (netinfo larger_world) = true ∧
  size (m_netNames (netinfo larger_world)) = S (size (m_netNames (netinfo sample_world))) ∧
  size (m_netCodes (netinfo larger_world)) = S (size (m_netCodes (netinfo sample_world))) ∧
  (∀ n, n ≠ m_netname (mem sample_world 4%nat) →
        GetNetItem_name (netinfo larger_world) n = GetNetItem_name (netinfo sample_world) n) ∧
  (∀ k, k ≠ m_netCode (mem larger_world 4%nat) →
        GetNetItem_code (netinfo larger_world) k = GetNetItem_code (netinfo sample_world) k) ∧
  (∀ x, x ≠ 4%nat → mem larger_world x = mem sample_world x).
Proof.
  apply (X1_AppendNet_then_GetNetItem 4%nat sample_world larger_world).
  - vm_compute; reflexivity.
  - vm_compute; reflexivity.
Defined.

(** X2: [AppendNet] stops only on its assertion, and exactly when the record
    has a new name, proposes the size of the code map as its code and that
    code is taken; the scan for a free code is never cut short. *)
Theorem X2_AppendNet_fault_iff (p : ptr) (w : world) (e : fault) :
  AppendNet p w = Fault e ↔
  e = AssertionFailed ∧
  m_netNames (netinfo w) !! m_netname (mem w p) = None ∧
  m_netCode (mem w p) = Z.of_nat (size (m_netCodes (netinfo w))) ∧
  is_Some (m_netCodes (netinfo w) !! m_netCode (mem w p)).
Proof.
  split.
  - intros HF. destruct (AppendNet_total p w) as [[w' HA]|(HA & ? & ? & ?)];
      [congruence|]. rewrite HA in HF. by injection HF as <-.
  - intros (-> & Hn & Hc & [q Hq]). rewrite AppendNet_keep by done. by rewrite Hq.
Qed.

Example AppendNet_into_gap :
  map_to_list (m_netCodes (netinfo gapped_world)) = [(2, 2%nat); (0, 0%nat)] ∧
  m_netCode (mem gapped_world 5%nat) = 2 ∧
  AppendNet 5%nat gapped_world = Fault AssertionFailed.
Proof. by_computation. Qed.

(** X3: [AppendNet] is idempotent: appending a record once more, right after
    it was appended, changes neither the registry nor any record. *)
Theorem X3_AppendNet_twice (p : ptr) (w w' : world) :
  AppendNet p w = Ok w' →
  ∃ w'', AppendNet p w' = Ok w'' ∧ netinfo w'' = netinfo w' ∧ ∀ x, mem w'' x = mem w' x.
Proof.
  intros [(q & Hq & ->)|(Hn & c & h & -> & Hc & _)]%AppendNet_Ok_inv.
  - exists (merged p q (merged p q w)). split.
    + apply AppendNet_merge. by rewrite merged_name.
    + split; [done|]. intros x. unfold merged. cbn [mem].
      rewrite !mem_insert_lookup. case_decide as Hx; [|done]. subst x.
      rewrite (decide_True (P := p = p)) by done.
      by destruct (decide (q = p)) as [->|Hqp].
  - exists (merged p p (inserted p c h w)). split.
    + apply AppendNet_merge. rewrite inserted_name. cbn. apply lookup_insert_eq.
    + split; [done|]. intros x. unfold merged. cbn [mem].
      rewrite mem_insert_lookup. case_decide as Hx; [|done]. subst x.
      apply set_netCode_same.
Qed.

Lemma X3_AppendNet_twice_witness :
  ∃ w'', AppendNet 4%nat larger_world = Ok w'' ∧ netinfo w'' = netinfo larger_world ∧
         ∀ x, mem w'' x = mem larger_world x.
Proof.
  apply (X3_AppendNet_twice 4%nat sample_world larger_world).
  vm_compute; reflexivity.
Defined.

(** X4: an explicit code is honoured when it is the size of the code map and
    free: the record keeps it and the hint stays where it was. *)
Theorem X4_AppendNet_keeps_next_slot (p : ptr) (w : world) :
  m_netNames (netinfo w) !! m_netname (mem w p) = None →
  m_netCode (mem w p) = Z.of_nat (size (m_netCodes (netinfo w))) →
  m_netCodes (netinfo w) !! m_netCode (mem w p) = None →
  ∃ w', AppendNet p w = Ok w' ∧
        mem w' p = mem w p ∧
        GetNetItem_code (netinfo w') (m_netCode (mem w p)) = Some p ∧
        m_newNetCode (netinfo w') = m_newNetCode (netinfo w).
Proof.
  intros Hn Hc Hfree. rewrite AppendNet_keep, Hfree by done. eexists. split; [done|].
  rewrite inserted_mem, decide_True by done. split_and!.
  - apply set_netCode_same.
  - unfold GetNetItem_code. cbn. apply lookup_insert_eq.
  - done.
Qed.

Lemma X4_AppendNet_keeps_next_slot_witness :
  ∃ w', AppendNet 6%nat proposing_world = Ok w' ∧
        mem w' 6%nat = mem proposing_world 6%nat ∧
        GetNetItem_code (netinfo w') (m_netCode (mem proposing_world 6%nat)) = Some 6%nat ∧
        m_newNetCode (netinfo w') = m_newNetCode (netinfo proposing_world).
Proof.
  apply (X4_AppendNet_keeps_next_slot 6%nat proposing_world); vm_compute; reflexivity.
Defined.

(** X5: any other proposal is ignored, even if the proposed code is free: the
    record gets the first free code above max(hint, 0), which depends on the
    registry alone, and the hint moves to that code. *)
Theorem X5_AppendNet_overrides_proposal (p : ptr) (w : world) :
  m_netNames (netinfo w) !! m_netname (mem w p) = None →
  m_netCode (mem w p) ≠ Z.of_nat (size (m_netCodes (netinfo w))) →
  ∃ w' c, AppendNet p w = Ok w' ∧
          m_netCode (mem w' p) = c ∧
          first_free_from (Z.max (m_newNetCode (netinfo w)) 0 + 1) (m_netCodes (netinfo w)) c ∧
          GetNetItem_code (netinfo w') c = Some p ∧
          m_newNetCode (netinfo w') = c.
Proof.
  intros Hn Hc.
  destruct (AppendNet_realloc p w Hn (or_introl Hc)) as (c & -> & Hlt & Hfree & Hfull).
  exists (inserted p c c w), c. split; [done|].
  rewrite inserted_mem, decide_True by done. split_and!.
  - done.
  - split_and!; [lia | done | intros k Hk; apply Hfull; lia].
  - unfold GetNetItem_code. cbn. apply lookup_insert_eq.
  - done.
Qed.

Lemma X5_AppendNet_overrides_proposal_witness :
  ∃ w' c, AppendNet 5%nat larger_world = Ok w' ∧
          m_netCode (mem w' 5%nat) = c ∧
          first_free_from (Z.max (m_newNetCode (netinfo larger_world)) 0 + 1)
            (m_netCodes (netinfo larger_world)) c ∧
          GetNetItem_code (netinfo w') c = Some 5%nat ∧
          m_newNetCode (netinfo w') = c.
Proof.
  apply (X5_AppendNet_overrides_proposal 5%nat larger_world).
  - vm_compute; reflexivity.
  - vm_compute; discriminate.
Defined.

Example proposal_of_free_code_ignored :
  m_netCode (mem fresh_world 2%nat) = 7 ∧
  m_netCodes (netinfo fresh_world) !! 7 = None ∧
  m_netCode (mem (world_of (AppendNet 2%nat fresh_world)) 2%nat) = 1.
Proof. by_computation. Qed.

(** ** [RemoveNet] *)

Lemma list_find_holds_inv {K} (l : list (K * ptr)) (aNet : ptr) i e :
  list_find (holds aNet) l = Some (i, e) → e.2 = aNet ∧ e ∈ l.
Proof.
  intros (Hi & He & _)%list_find_Some. split; [done|]. by eapply list_elem_of_lookup_2.
Qed.

(** X6: [RemoveNet] stops on its assertion exactly when the name map holds
    the pointer and the code map does not. *)
Theorem X6_RemoveNet_fault_iff (p : ptr) (w : world) (e : fault) :
  RemoveNet p w = Fault e ↔
  e = AssertionFailed ∧
  (∃ n, m_netNames (netinfo w) !! n = Some p) ∧
  ¬ (∃ k, m_netCodes (netinfo w) !! k = Some p).
Proof.
  unfold RemoveNet.
  destruct (list_find (holds p) (ascending (m_netCodes (netinfo w))))
    as [[i [k q]]|] eqn:Hc;
    destruct (list_find (holds p) (map_to_list (m_netNames (netinfo w))))
      as [[j [n q']]|] eqn:Hn; cbn.
  - apply list_find_holds_inv in Hc as [Hq Hk%elem_of_ascending]. simpl in Hq. subst q.
    split; [done|]. intros (_ & _ & Hno). destruct Hno. eauto.
  - apply list_find_holds_inv in Hc as [Hq Hk%elem_of_ascending]. simpl in Hq. subst q.
    split; [done|]. intros (_ & _ & Hno). destruct Hno. eauto.
  - apply list_find_holds_inv in Hn as [Hq Hk%elem_of_map_to_list]. simpl in Hq. subst q'.
    apply list_find_None in Hc. rewrite list.Forall_forall in Hc.
    split.
    + intros [= <-]. split_and!; [done | eauto |].
      intros [k Hk'%elem_of_ascending]. by apply (Hc _ Hk').
    + by intros (-> & _).
  - apply list_find_None in Hn. rewrite list.Forall_forall in Hn.
    split; [done|]. intros (_ & [n Hk%elem_of_map_to_list] & _).
    exfalso. by apply (Hn _ Hk).
Qed.

(** X7: in a registry whose indices agree, removing a registered record
    succeeds; afterwards neither its code nor its name is found, every other
    registered record is still found under its code and its name, each map
    has one entry less, the hint is min(hint, code - 1), the stale flag is
    set and no record was written. *)
Theorem X7_RemoveNet_registered (p : ptr) (w : world) :
  consistent w →
  registered w p →
  ∃ w', RemoveNet p w = Ok w' ∧
        GetNetItem_code (netinfo w') (m_netCode (mem w p)) = None ∧
        GetNetItem_name (netinfo w') (m_netname (mem w p)) = None ∧
        ¬ registered w' p ∧
        (∀ q, registered w q → q ≠ p →
              GetNetItem_code (netinfo w') (m_netCode (mem w q)) = Some q ∧
              GetNetItem_name (netinfo w') (m_netname (mem w q)) = Some q) ∧
        S (size (m_netCodes (netinfo w'))) = size (m_netCodes (netinfo w)) ∧
        S (size (m_netNames (netinfo w'))) = size (m_netNames (netinfo w)) ∧
        m_newNetCode (netinfo w') = Z.min (m_newNetCode (netinfo w)) (m_netCode (mem w p) - 1) ∧
        m_DisplayNetnamesDirty (netinfo w') = true ∧
        mem w' = mem w.
Proof.
  intros Hw Hp. exists (removed p w). split; [by apply RemoveNet_registered|].
  pose proof (registered_codes w Hw p Hp) as Hc.
  pose proof (registered_names w Hw p Hp) as Hn.
  unfold GetNetItem_code, GetNetItem_name. cbn. split_and!.
  - apply lookup_delete_eq.
  - apply lookup_delete_eq.
  - unfold registered. cbn.
    intros [[k [Hne Hk]%lookup_delete_Some]|[n [Hne Hk]%lookup_delete_Some]].
    + by destruct (codes_keyed w Hw _ _ Hk) as [<- _].
    + by destruct (names_keyed w Hw _ _ Hk) as [<- _].
  - intros q Hq Hqp. split.
    + rewrite lookup_delete_ne; [by apply registered_codes|].
      intros Heq. apply Hqp. symmetry. by apply (registered_same_code w Hw).
    + rewrite lookup_delete_ne; [by apply registered_names|].
      intros Heq. apply Hqp. symmetry. by apply (registered_same_name w Hw).
  - rewrite map_size_delete_Some by eauto.
    pose proof (map_size_ne_0_lookup_2 _ _ (mk_is_Some _ _ Hc)). lia.
  - rewrite map_size_delete_Some by eauto.
    pose proof (map_size_ne_0_lookup_2 _ _ (mk_is_Some _ _ Hn)). lia.
  - done.
  - done.
  - done.
Qed.

Lemma X7_RemoveNet_registered_witness :
  ∃ w', RemoveNet 1%nat sample_world = Ok w' ∧
        GetNetItem_code (netinfo w') (m_netCode (mem sample_world 1%nat)) = None ∧
        GetNetItem_name (netinfo w') (m_netname (mem sample_world 1%nat)) = None ∧
        ¬ registered w' 1%nat ∧
        (∀ q, registered sample_world q → q ≠ 1%nat →
              GetNetItem_code (netinfo w') (m_netCode (mem sample_world q)) = Some q ∧
              GetNetItem_name (netinfo w') (m_netname (mem sample_world q)) = Some q) ∧
        S (size (m_netCodes (netinfo w'))) = size (m_netCodes (netinfo sample_world)) ∧
        S (size (m_netNames (netinfo w'))) = size (m_netNames (netinfo sample_world)) ∧
        m_newNetCode (netinfo w') =
          Z.min (m_newNetCode (netinfo sample_world)) (m_netCode (mem sample_world 1%nat) - 1) ∧
        m_DisplayNetnamesDirty (netinfo w') = true ∧
        mem w' = mem sample_world.
Proof.
  apply (X7_RemoveNet_registered 1%nat sample_world); decide_by_computation.
Defined.

(** X8: appending a record with a new name and removing it again gives back
    the two maps as they were; the record keeps the code it was given and the
    hint is left just below that code, or lower. *)
Theorem X8_AppendNet_then_RemoveNet (p : ptr) (w w1 : world) :
  consistent w →
  m_netNames (netinfo w) !! m_netname (mem w p) = None →
  AppendNet p w = Ok w1 →
  ∃ w2, RemoveNet p w1 = Ok w2 ∧
        m_netNames (netinfo w2) = m_netNames (netinfo w) ∧
        m_netCodes (netinfo w2) = m_netCodes (netinfo w) ∧
        mem w2 = mem w1 ∧
        m_newNetCode (netinfo w2) =
          Z.min (m_newNetCode (netinfo w1)) (m_netCode (mem w1 p) - 1).
Proof.
  intros Hw Hn HA. pose proof (AppendNet_consistent p w w1 Hw HA) as Hw1.
  apply AppendNet_Ok_inv in HA as [(q & Hq & _)|(_ & c & h & -> & Hc & _)]; [congruence|].
  exists (removed p (inserted p c h w)). split.
  - apply RemoveNet_registered; [done|]. left. exists c. cbn. apply lookup_insert_eq.
  - unfold removed. cbn [netinfo mem m_netNames m_netCodes m_newNetCode].
    rewrite inserted_mem, decide_True by done. cbn.
    by rewrite !delete_insert_id.
Qed.

Lemma X8_AppendNet_then_RemoveNet_witness :
  ∃ w2, RemoveNet 4%nat larger_world = Ok w2 ∧
        m_netNames (netinfo w2) = m_netNames (netinfo sample_world) ∧
        m_netCodes (netinfo w2) = m_netCodes (netinfo sample_world) ∧
        mem w2 = mem larger_world ∧
        m_newNetCode (netinfo w2) =
          Z.min (m_newNetCode (netinfo larger_world)) (m_netCode (mem larger_world 4%nat) - 1).
Proof.
  apply (X8_AppendNet_then_RemoveNet 4%nat sample_world larger_world).
  - decide_by_computation.
  - vm_compute; reflexivity.
  - vm_compute; reflexivity.
Defined.

(** ** What every sequence of operations keeps *)

Lemma consistent_clear w : consistent (clear w).1.
Proof. split; intros k p Hk; cbn in Hk; by rewrite lookup_empty in Hk. Qed.

Lemma operation_consistent w w' : consistent w → operation w w' → consistent w'.
Proof.
  intros Hw Hop. revert Hw.
  destruct Hop as [p r w0 Hp|p b w0|p w0 w1 HA|p w0 w1 HR|aCommit w0|w0]; intros Hw.
  - by apply consistent_create.
  - by apply consistent_SetIsCurrent.
  - by eapply AppendNet_consistent.
  - by eapply RemoveNet_consistent.
  - by apply RemoveUnusedNets_consistent.
  - apply consistent_clear.
Qed.

Lemma operation_codes_nonneg w w' :
  consistent w →
  (∀ k, is_Some (m_netCodes (netinfo w) !! k) → 0 <= k) →
  operation w w' →
  ∀ k, is_Some (m_netCodes (netinfo w') !! k) → 0 <= k.
Proof.
  intros Hw Hpos Hop. revert Hw Hpos.
  destruct Hop as [p r w0 Hp|p b w0|p w0 w1 HA|p w0 w1 HR|aCommit w0|w0];
    intros Hw Hpos k.
  - apply Hpos.
  - apply Hpos.
  - apply AppendNet_Ok_inv in HA as [(q & _ & ->)|(_ & c & h & -> & _ & Hc & _)];
      [apply Hpos|].
    cbn. rewrite lookup_insert. case_decide; [lia | apply Hpos].
  - apply RemoveNet_Ok_inv in HR as [[_ ->]|[_ ->]]; [|apply Hpos|done].
    cbn. intros [x [_ Hx]%lookup_delete_Some]. apply Hpos. eauto.
  - intros [x [Hx _]%RemoveUnusedNets_codes]. apply Hpos. eauto.
  - cbn. rewrite lookup_empty. by intros [? ?].
Qed.

(** X9: in every world a registry reaches from its constructor by a sequence
    of operations in which every [AppendNet] call passed its two assertions
    (and records are created only at addresses that are not registered), the
    two indices agree, no registered code is negative, and [RemoveNet]
    returns without firing its assertion whatever pointer it is given. *)
Theorem X9_in_use_invariants (w : world) :
  in_use w →
  consistent w ∧
  (∀ k, is_Some (m_netCodes (netinfo w) !! k) → 0 <= k) ∧
  (∀ p, ∃ w', RemoveNet p w = Ok w').
Proof.
  intros Hu.
  assert (H : consistent w ∧ ∀ k, is_Some (m_netCodes (netinfo w) !! k) → 0 <= k).
  { induction Hu as [p0 m w0 Hnew|w w' _ [IHc IHp] Hop].
    - split; [by eapply grounded_consistent, NETINFO_LIST_new_grounded|].
      rewrite NETINFO_LIST_new_eq in Hnew. injection Hnew as <-.
      intros k. cbn. rewrite lookup_insert. case_decide; [lia|].
      rewrite lookup_empty. by intros [? ?].
    - split; [by eapply operation_consistent | by eapply operation_codes_nonneg]. }
  destruct H as [Hc Hp]. split_and!; [done | done |].
  intros p. by apply RemoveNet_total.
Qed.

Lemma X9_in_use_invariants_witness :
  consistent (clear gapped_world).1 ∧
  (∀ k, is_Some (m_netCodes (netinfo (clear gapped_world).1) !! k) → 0 <= k) ∧
  (∀ p, ∃ w', RemoveNet p (clear gapped_world).1 = Ok w').
Proof.
  apply (X9_in_use_invariants (clear gapped_world).1).
  apply (in_use_op gapped_world); [|apply op_clear].
  apply (in_use_op sample_world); [|apply (op_remove 1%nat); vm_compute; reflexivity].
  apply (in_use_op (world_of (AppendNet 1%nat fresh_world))).
  - apply (in_use_op fresh_world).
    + apply (in_use_new 0%nat sample_memory). vm_compute; reflexivity.
    + apply (op_append 1%nat). vm_compute; reflexivity.
  - apply (op_append 2%nat). vm_compute; reflexivity.
Defined.

(** X10: code 0 is never allocated: a record that [AppendNet] registers holds
    code 0 only if it proposed 0 and the code map was empty. *)
Theorem X10_code_zero_only_into_empty (p : ptr) (w w' : world) :
  m_netNames (netinfo w) !! m_netname (mem w p) = None →
  AppendNet p w = Ok w' →
  m_netCode (mem w' p) = 0 →
  m_netCode (mem w p) = 0 ∧ m_netCodes (netinfo w) = ∅.
Proof.
  intros Hn HA H0.
  destruct (decide (m_netCode (mem w p) = Z.of_nat (size (m_netCodes (netinfo w)))))
    as [Heq|Hne].
  - rewrite (AppendNet_keep _ _ Hn Heq) in HA.
    destruct (m_netCodes (netinfo w) !! m_netCode (mem w p)); [done|].
    injection HA as <-. rewrite inserted_mem, decide_True in H0 by done. cbn in H0.
    split; [done|]. apply map_size_empty_inv. lia.
  - destruct (AppendNet_realloc p w Hn (or_introl Hne)) as (c & HA' & Hlt & _).
    rewrite HA' in HA. injection HA as <-.
    rewrite inserted_mem, decide_True in H0 by done. cbn in H0. lia.
Qed.

Lemma X10_code_zero_only_into_empty_witness :
  m_netCode (mem (create 0%nat (new_NETINFO_ITEM "" 0) blank_world) 0%nat) = 0 ∧
  m_netCodes (netinfo (create 0%nat (new_NETINFO_ITEM "" 0) blank_world)) = ∅.
Proof.
  apply (X10_code_zero_only_into_empty 0%nat
           (create 0%nat (new_NETINFO_ITEM "" 0) blank_world)
           (world_of (AppendNet 0%nat (create 0%nat (new_NETINFO_ITEM "" 0) blank_world))));
    vm_compute; reflexivity.
Defined.

(** ** More on [RemoveUnusedNets] *)

Lemma world_eq (w1 w2 : world) :
  mem w1 = mem w2 →
  m_netNames (netinfo w1) = m_netNames (netinfo w2) →
  m_netCodes (netinfo w1) = m_netCodes (netinfo w2) →
  m_newNetCode (netinfo w1) = m_newNetCode (netinfo w2) →
  m_DisplayNetnamesDirty (netinfo w1) = m_DisplayNetnamesDirty (netinfo w2) →
  w1 = w2.
Proof.
  destruct w1 as [m1 [n1 c1 h1 d1]], w2 as [m2 [n2 c2 h2 d2]]. cbn.
  by intros -> -> -> -> ->.
Qed.

Lemma prune_fold_dirty m es acc :
  m_DisplayNetnamesDirty (foldl (prune_step m) acc es).1 =
    if decide (filter (fun e => ¬ current m e) es = [])
    then m_DisplayNetnamesDirty acc.1 else true.
Proof.
  revert acc. induction es as [|[kc p] es IH]; intros [l c]; simpl; [done|].
  rewrite IH, filter_cons.
  destruct (decide (¬ current m (kc, p))) as [Hp|Hp]; unfold current in Hp; simpl in Hp.
  - destruct (m_isCurrent (m p)); [done|]. simpl. by repeat case_decide.
  - destruct (m_isCurrent (m p)); [done|]. exfalso. apply Hp. discriminate.
Qed.

Lemma RemoveUnusedNets_dirty aCommit w :
  m_DisplayNetnamesDirty (netinfo (RemoveUnusedNets aCommit w).1) =
    if decide (dropped w = []) then m_DisplayNetnamesDirty (netinfo w) else true.
Proof.
  rewrite RemoveUnusedNets_unfold. cbn. rewrite prune_fold_dirty. cbn. unfold dropped.
  destruct (decide (filter (fun e => ¬ current (mem w) e)
                      (ascending (m_netCodes (netinfo w))) = [])) as [He|Hne].
  - rewrite He. by rewrite decide_True.
  - rewrite decide_False; [done|]. by intros ?%fmap_nil_inv.
Qed.

(** X11: the stale flag is set exactly when a record is dropped, and never
    cleared; the code hint and the records are not touched, so the codes of
    the dropped records are not handed out again by a lowered hint. *)
Theorem X11_RemoveUnusedNets_flag_and_hint (aCommit : option BOARD_COMMIT) (w : world) :
  m_DisplayNetnamesDirty (netinfo (RemoveUnusedNets aCommit w).1) =
    (if decide (dropped w = []) then m_DisplayNetnamesDirty (netinfo w) else true) ∧
  m_newNetCode (netinfo (RemoveUnusedNets aCommit w).1) = m_newNetCode (netinfo w) ∧
  mem (RemoveUnusedNets aCommit w).1 = mem w.
Proof.
  split_and!;
    [apply RemoveUnusedNets_dirty | apply RemoveUnusedNets_hint | apply RemoveUnusedNets_mem].
Qed.

(** X12: a second [RemoveUnusedNets] finds nothing to do: it leaves the world
    as the first one left it and sends no notification. *)
Theorem X12_RemoveUnusedNets_twice (c c' : option BOARD_COMMIT) (w : world) :
  consistent w →
  RemoveUnusedNets c' (RemoveUnusedNets c w).1 = ((RemoveUnusedNets c w).1, c').
Proof.
  intros Hw. pose proof (RemoveUnusedNets_consistent c w Hw) as Hw1.
  set (w1 := (RemoveUnusedNets c w).1) in *.
  assert (Hnone : dropped w1 = []).
  { destruct (dropped w1) as [|p d] eqn:Hd; [done|].
    assert (p ∈ dropped w1) as [[k [_ Hk]%RemoveUnusedNets_codes] Hp]%elem_of_dropped
      by (rewrite Hd; by left).
    unfold w1 in Hp. rewrite RemoveUnusedNets_mem in Hp. congruence. }
  rewrite (surjective_pairing (RemoveUnusedNets c' w1)). f_equal.
  - apply world_eq.
    + apply RemoveUnusedNets_mem.
    + apply map_eq. intros n. apply option_eq. intros p.
      rewrite RemoveUnusedNets_names by done. split; [by intros [? _]|].
      intros Hn. split; [done|].
      apply RemoveUnusedNets_names in Hn as [_ Hcur]; [|done].
      unfold w1. by rewrite RemoveUnusedNets_mem.
    + apply map_eq. intros k. apply option_eq. intros p.
      rewrite RemoveUnusedNets_codes. split; [by intros [? _]|].
      intros Hk. split; [done|].
      apply RemoveUnusedNets_codes in Hk as [_ Hcur].
      unfold w1. by rewrite RemoveUnusedNets_mem.
    + apply RemoveUnusedNets_hint.
    + rewrite RemoveUnusedNets_dirty, Hnone. by rewrite decide_True.
  - rewrite RemoveUnusedNets_commit, Hnone. destruct c'; simpl; [|done].
    by rewrite app_nil_r.
Qed.

Lemma X12_RemoveUnusedNets_twice_witness :
  RemoveUnusedNets (Some [7%nat]) (RemoveUnusedNets (Some []) unplugged_world).1 =
    ((RemoveUnusedNets (Some []) unplugged_world).1, Some [7%nat]).
Proof.
  apply (X12_RemoveUnusedNets_twice (Some []) (Some [7%nat]) unplugged_world).
  decide_by_computation.
Defined.

Lemma dropped_ascending (m : memory) (l : list (Z * ptr)) :
  StronglySorted key_le l →
  NoDup l.*1 →
  (∀ k p, (k, p) ∈ l → m_netCode (m p) = k) →
  StronglySorted Z.lt
    ((fun p => m_netCode (m p)) <$> (filter (fun e => ¬ current m e) l).*2).
Proof.
  induction 1 as [|[k p] l Hl IH Hall]; intros Hnd Hkey; [constructor|].
  simpl in Hnd. apply list.NoDup_cons in Hnd as [Hk Hnd].
  assert (Hkey' : ∀ k' p', (k', p') ∈ l → m_netCode (m p') = k')
    by (intros k' p' Hin; apply Hkey, elem_of_cons; by right).
  specialize (IH Hnd Hkey').
  rewrite filter_cons. case_decide; [|done].
  simpl. constructor; [done|].
  apply list.Forall_forall. intros c Hc.
  apply list_elem_of_fmap in Hc as (q & -> & Hq).
  apply list_elem_of_fmap in Hq as ([k' q'] & -> & [_ Hin]%list_elem_of_filter). simpl.
  rewrite (Hkey k p) by (by left). rewrite (Hkey' k' q') by done.
  rewrite list.Forall_forall in Hall. pose proof (Hall _ Hin) as Hle.
  unfold key_le in Hle. simpl in Hle.
  assert (k ≠ k'); [|lia].
  intros ->. apply Hk. apply list_elem_of_fmap. by exists (k', q').
Qed.

(** X13: called with a commit, [RemoveUnusedNets] leaves the commit with the
    notifications it had received before followed by those of this call;
    these are sent in strictly ascending order of the net codes of their
    records, and they are the records of the code map that are not
    current. *)
Theorem X13_RemoveUnusedNets_notifies_in_code_order (log : BOARD_COMMIT) (w : world) :
  consistent w →
  ∃ sent,
    (RemoveUnusedNets (Some log) w).2 = Some (log ++ sent) ∧
    StronglySorted Z.lt ((fun p => m_netCode (mem w p)) <$> sent) ∧
    (∀ p, p ∈ sent ↔
          (∃ k, m_netCodes (netinfo w) !! k = Some p) ∧ m_isCurrent (mem w p) = false).
Proof.
  intros Hw. exists (dropped w). split_and!.
  - by rewrite RemoveUnusedNets_commit.
  - unfold dropped. apply dropped_ascending.
    + apply ascending_sorted.
    + unfold ascending. rewrite merge_sort_Permutation. apply NoDup_fst_map_to_list.
    + intros k p Hk%elem_of_ascending. by destruct (codes_keyed w Hw _ _ Hk).
  - intros p. apply elem_of_dropped.
Qed.

Lemma X13_RemoveUnusedNets_notifies_in_code_order_witness :
  ∃ sent,
    (RemoveUnusedNets (Some [7%nat]) orphaned_world).2 = Some ([7%nat] ++ sent) ∧
    StronglySorted Z.lt ((fun p => m_netCode (mem orphaned_world p)) <$> sent) ∧
    (∀ p, p ∈ sent ↔
          (∃ k, m_netCodes (netinfo orphaned_world) !! k = Some p) ∧
          m_isCurrent (mem orphaned_world p) = false).
Proof.
  apply (X13_RemoveUnusedNets_notifies_in_code_order [7%nat] orphaned_world).
  decide_by_computation.
Defined.

Example prune_orphaned_with_commit :
  (RemoveUnusedNets (Some [7%nat]) orphaned_world).2 = Some [7; 1; 2]%nat ∧
  m_netCode (mem orphaned_world 1%nat) = 1 ∧
  m_netCode (mem orphaned_world 2%nat) = 2.
Proof. by_computation. Qed.

Example orphaned_world_notifications :
  (RemoveUnusedNets (Some []) orphaned_world).2 = Some [1%nat; 2%nat].
Proof. by_computation. Qed.

(** ** [clear] *)

Lemma NoDup_nets_of w : consistent w → NoDup (nets_of (netinfo w)).
Proof.
  intros Hw. unfold nets_of. apply NoDup_fmap_2_strong; [|apply NoDup_map_to_list].
  intros [n p] [n' p'] Hn%elem_of_map_to_list Hn'%elem_of_map_to_list Heq.
  simpl in Heq. subst p'.
  destruct (names_keyed w Hw _ _ Hn) as [<- _].
  by destruct (names_keyed w Hw _ _ Hn') as [<- _].
Qed.

Lemma elem_of_nets_of w p :
  p ∈ nets_of (netinfo w) ↔ ∃ n, m_netNames (netinfo w) !! n = Some p.
Proof.
  unfold nets_of. rewrite list_elem_of_fmap. split.
  - intros ([n q] & -> & Hn%elem_of_map_to_list). eauto.
  - intros [n Hn]. exists (n, p). split; [done | by apply elem_of_map_to_list].
Qed.

(** X14: after [clear] no code and no name is found, the hint is 0, and the
    stale flag and the memory are as before; in a registry whose indices
    agree every registered record, and nothing else, was handed to [delete],
    each exactly once. *)
Theorem X14_clear_empties_and_deletes_once (w : world) :
  consistent w →
  (∀ k, GetNetItem_code (netinfo (clear w).1) k = None) ∧
  (∀ n, GetNetItem_name (netinfo (clear w).1) n = None) ∧
  m_newNetCode (netinfo (clear w).1) = 0 ∧
  m_DisplayNetnamesDirty (netinfo (clear w).1) = m_DisplayNetnamesDirty (netinfo w) ∧
  mem (clear w).1 = mem w ∧
  NoDup (clear w).2 ∧
  (∀ p, p ∈ (clear w).2 ↔ registered w p).
Proof.
  intros Hw. unfold GetNetItem_code, GetNetItem_name. cbn.
  split_and!; [apply lookup_empty | apply lookup_empty | done | done | done | |].
  - by apply NoDup_nets_of.
  - intros p. fold (nets_of (netinfo w)). rewrite elem_of_nets_of. split.
    + intros ?. by right.
    + intros Hp. exists (m_netname (mem w p)). by apply registered_names.
Qed.

Lemma X14_clear_empties_and_deletes_once_witness :
  (∀ k, GetNetItem_code (netinfo (clear sample_world).1) k = None) ∧
  (∀ n, GetNetItem_name (netinfo (clear sample_world).1) n = None) ∧
  m_newNetCode (netinfo (clear sample_world).1) = 0 ∧
  m_DisplayNetnamesDirty (netinfo (clear sample_world).1)
    = m_DisplayNetnamesDirty (netinfo sample_world) ∧
  mem (clear sample_world).1 = mem sample_world ∧
  NoDup (clear sample_world).2 ∧
  (∀ p, p ∈ (clear sample_world).2 ↔ registered sample_world p).
Proof.
  apply (X14_clear_empties_and_deletes_once sample_world).
  decide_by_computation.
Defined.

(** X15: [clear] does not bring the unconnected net back: the first record
    appended to a cleared registry (a record that [clear] did not delete) is
    registered with code 0 if it proposes 0, and with code 1 whatever else it
    proposes. *)
Theorem X15_AppendNet_after_clear (p : ptr) (w : world) :
  ¬ registered w p →
  ∃ w', AppendNet p (clear w).1 = Ok w' ∧
        m_netCode (mem w' p) = (if decide (m_netCode (mem w p) = 0) then 0 else 1) ∧
        GetNetItem_code (netinfo w') (m_netCode (mem w' p)) = Some p ∧
        GetNetItem_name (netinfo w') (m_netname (mem w p)) = Some p.
Proof.
  intros _.
  assert (Hn : m_netNames (netinfo (clear w).1) !! m_netname (mem (clear w).1 p) = None)
    by apply lookup_empty.
  case_decide as H0.
  - rewrite AppendNet_keep; [|done|cbn; by rewrite map_size_empty].
    cbn [clear fst netinfo m_netCodes]. rewrite lookup_empty. eexists. split; [done|].
    rewrite inserted_mem, decide_True by done. unfold GetNetItem_code, GetNetItem_name.
    cbn. rewrite !lookup_insert_eq. by rewrite H0.
  - destruct (AppendNet_realloc p (clear w).1 Hn) as (c & -> & Hlt & _ & Hfull).
    { left. cbn. by rewrite map_size_empty. }
    cbn in Hlt, Hfull.
    assert (c = 1) as ->.
    { destruct (decide (c = 1)) as [|Hne]; [done|].
      destruct (Hfull 1) as [x Hx]; [lia|]. by rewrite lookup_empty in Hx. }
    eexists. split; [done|].
    rewrite inserted_mem, decide_True by done. unfold GetNetItem_code, GetNetItem_name.
    cbn. by rewrite !lookup_insert_eq.
Qed.

Lemma X15_AppendNet_after_clear_witness :
  ∃ w', AppendNet 4%nat (clear sample_world).1 = Ok w' ∧
        m_netCode (mem w' 4%nat) =
          (if decide (m_netCode (mem sample_world 4%nat) = 0) then 0 else 1) ∧
        GetNetItem_code (netinfo w') (m_netCode (mem w' 4%nat)) = Some 4%nat ∧
        GetNetItem_name (netinfo w') (m_netname (mem sample_world 4%nat)) = Some 4%nat.
Proof.
  apply (X15_AppendNet_after_clear 4%nat sample_world).
  decide_by_computation.
Defined.

(** ** More on [Update] and [Translate] *)

Lemma used_nets_ext b1 b2 :
  (∀ c, c = 0 ∨ referenced b1 c ↔ c = 0 ∨ referenced b2 c) →
  used_nets b1 = used_nets b2.
Proof.
  intros Href. apply (StronglySorted_unique_strong Z.lt).
  - intros; lia.
  - apply used_nets_sorted.
  - apply used_nets_sorted.
  - apply NoDup_Permutation; [apply sorted_NoDup, used_nets_sorted..|].
    intros c. by rewrite !elem_of_used_nets.
Qed.

(** X16: the mapping [Update] builds depends only on the set of referenced
    codes: how often a code occurs, on which kind of item, and in which order
    the items are stored makes no difference. *)
Theorem X16_Update_depends_on_referenced_set (b1 b2 : BOARD) :
  (∀ c, c = 0 ∨ referenced b1 c ↔ c = 0 ∨ referenced b2 c) →
  Update b1 = Update b2.
Proof. intros Href. unfold Update. by rewrite (used_nets_ext b1 b2). Qed.

Lemma X16_Update_depends_on_referenced_set_witness :
  Update sample_board =
  Update {| Zones := []; Tracks := []; Drawings := [PCB_SHAPE 7];
            Footprints := [mkFootprint [5; 5]] |}.
Proof.
  apply (X16_Update_depends_on_referenced_set sample_board
           {| Zones := []; Tracks := []; Drawings := [PCB_SHAPE 7];
              Footprints := [mkFootprint [5; 5]] |}).
  intros c. rewrite <- !elem_of_used_nets.
  assert (used_nets sample_board = [0; 5; 7]) as -> by reflexivity.
  assert (used_nets {| Zones := []; Tracks := []; Drawings := [PCB_SHAPE 7];
                       Footprints := [mkFootprint [5; 5]] |} = [0; 5; 7]) as ->
    by reflexivity.
  reflexivity.
Defined.

Lemma sorted_nonneg_lookup (l : list Z) i c :
  StronglySorted Z.lt l → (∀ x, x ∈ l → 0 <= x) → l !! i = Some c → Z.of_nat i <= c.
Proof.
  intros Hs Hpos. revert c. induction i as [|i IH]; intros c Hi.
  - apply Hpos. by eapply list_elem_of_lookup_2.
  - destruct (lookup_lt_is_Some_2 l i) as [c' Hc'].
    { apply lookup_lt_Some in Hi. lia. }
    pose proof (IH c' Hc').
    pose proof (sorted_lookup_lt l i (S i) c' c Hs Hc' Hi). lia.
Qed.

(** X17: on a board none of whose referenced codes is negative, compaction
    never raises a code: [Translate] returns a number between 0 and the code
    it is given, for every code that is not negative. *)
Theorem X17_Translate_never_raises (b : BOARD) (c : Z) :
  (∀ x, referenced b x → 0 <= x) →
  0 <= c →
  0 <= Translate (Update b) c <= c.
Proof.
  intros Hpos Hc. unfold Translate.
  destruct (Update b !! c) as [v|] eqn:Hv; [|lia].
  apply Update_lookup in Hv as (i & Hi & ->).
  pose proof (sorted_nonneg_lookup (used_nets b) i c (used_nets_sorted b)) as Hle.
  split; [lia|]. apply Hle; [|done].
  intros x [->|Hx]%elem_of_used_nets; [done | by apply Hpos].
Qed.

Lemma X17_Translate_never_raises_witness :
  0 <= Translate (Update sample_board) 7 <= 7.
Proof.
  apply (X17_Translate_never_raises sample_board 7); [|lia].
  intros x Hx. assert (x ∈ used_nets sample_board) as Hin
    by (apply elem_of_used_nets; by right).
  assert (used_nets sample_board = [0; 5; 7]) as Hl by reflexivity.
  rewrite Hl in Hin. repeat (apply elem_of_cons in Hin as [->|Hin]; [lia|]).
  by apply elem_of_nil in Hin.
Defined.

(** ** [RebuildDisplayNetnames] *)

Lemma names_insert_lookup (nm : name_memory) p r x :
  (<[p := r]> nm) x = if decide (x = p) then r else nm x.
Proof.
  case_decide; subst; [apply fn_lookup_insert | by apply fn_lookup_insert_ne].
Qed.

Lemma count_short_fold nm ps acc s :
  default 0 (foldl (count_short nm) acc ps !! s) =
  default 0 (acc !! s) + Z.of_nat (length (filter (fun q => m_shortNetname (nm q) = s) ps)).
Proof.
  revert acc. induction ps as [|p ps IH]; intros acc; simpl; [lia|].
  rewrite IH, filter_cons. unfold count_short. rewrite lookup_insert.
  case_decide as Hs; simpl; [subst s|]; lia.
Qed.

Lemma set_display_lookup U m sn nm p x :
  set_display U m sn nm p x = if decide (x = p) then display_of U m sn nm p else nm x.
Proof. unfold set_display. by rewrite names_insert_lookup. Qed.

Lemma display_of_set_display U m sn nm p x :
  display_of U m sn (set_display U m sn nm p) x = display_of U m sn nm x.
Proof.
  unfold display_of. rewrite set_display_lookup. case_decide; [by subst|done].
Qed.

Lemma set_display_fold U m sn ps nm x :
  foldl (set_display U m sn) nm ps x =
  if decide (x ∈ ps) then display_of U m sn nm x else nm x.
Proof.
  revert nm. induction ps as [|p ps IH]; intros nm.
  { by destruct (decide (x ∈ [])) as [?%elem_of_nil|]. }
  cbn [foldl].
  rewrite IH, display_of_set_display, set_display_lookup.
  destruct (decide (x ∈ ps)) as [Hin|Hout].
  - rewrite decide_True; [done | by right].
  - destruct (decide (x = p)) as [->|Hne].
    + rewrite decide_True; [done | by left].
    + rewrite decide_False; [done|]. by intros [?|?]%elem_of_cons.
Qed.

Lemma count_one_iff_unique (ps : list ptr) (f : ptr → string) p :
  NoDup ps → p ∈ ps →
  length (filter (fun q => f q = f p) ps) = 1%nat ↔ ∀ q, q ∈ ps → f q = f p → q = p.
Proof.
  intros Hnd Hp.
  assert (Hin : p ∈ filter (fun q => f q = f p) ps) by (by apply list_elem_of_filter).
  assert (Hnd' : NoDup (filter (fun q => f q = f p) ps)) by (by apply list.NoDup_filter).
  assert (Hall : ∀ q, q ∈ filter (fun q => f q = f p) ps ↔ q ∈ ps ∧ f q = f p).
  { intros q. rewrite list_elem_of_filter. tauto. }
  destruct (filter (fun q => f q = f p) ps) as [|a [|b l]].
  - by apply elem_of_nil in Hin.
  - apply list_elem_of_singleton in Hin as ->. split; [|done].
    intros _ q Hq Hfq. apply list_elem_of_singleton, Hall. done.
  - split; [done|]. intros Huniq. exfalso.
    assert (a = p) as -> by (apply Huniq; apply Hall; by left).
    assert (b = p) as -> by (apply Huniq; apply Hall; right; by left).
    apply list.NoDup_cons in Hnd' as [Hnot _]. apply Hnot. by left.
Qed.

Lemma filter_length_ext (P Q : ptr → Prop) `{!∀ x, Decision (P x)} `{!∀ x, Decision (Q x)}
  (ps : list ptr) :
  (∀ x, P x ↔ Q x) → length (filter P ps) = length (filter Q ps).
Proof.
  intros HPQ. induction ps as [|p ps IH]; [done|].
  rewrite !filter_cons. destruct (decide (P p)) as [HP|HP].
  - rewrite decide_True by (by apply HPQ). simpl. by rewrite IH.
  - rewrite decide_False by (by rewrite <- HPQ). done.
Qed.

(** X18: in a registry whose indices agree, [RebuildDisplayNetnames] gives a
    registered net the unescaped short name as display name when no other
    registered net has the same short name, and the unescaped full name when
    another one has; short names are kept, the names of records outside the
    registry are not touched, the stale flag is cleared and the rest of the
    registry is as before. *)
Theorem X18_display_name_rule (UnescapeString : string → string)
  (w : world) (nm : name_memory) (p : ptr) :
  consistent w →
  registered w p →
  m_shortNetname ((RebuildDisplayNetnames UnescapeString w nm).2 p) = m_shortNetname (nm p) ∧
  ((∀ q, registered w q → m_shortNetname (nm q) = m_shortNetname (nm p) → q = p) →
   m_displayNetname ((RebuildDisplayNetnames UnescapeString w nm).2 p)
     = UnescapeString (m_shortNetname (nm p))) ∧
  (∀ q, registered w q → q ≠ p → m_shortNetname (nm q) = m_shortNetname (nm p) →
   m_displayNetname ((RebuildDisplayNetnames UnescapeString w nm).2 p)
     = UnescapeString (m_netname (mem w p))) ∧
  (∀ x, ¬ registered w x → (RebuildDisplayNetnames UnescapeString w nm).2 x = nm x) ∧
  m_DisplayNetnamesDirty (netinfo (RebuildDisplayNetnames UnescapeString w nm).1) = false ∧
  m_netNames (netinfo (RebuildDisplayNetnames UnescapeString w nm).1) = m_netNames (netinfo w) ∧
  m_netCodes (netinfo (RebuildDisplayNetnames UnescapeString w nm).1) = m_netCodes (netinfo w) ∧
  m_newNetCode (netinfo (RebuildDisplayNetnames UnescapeString w nm).1) = m_newNetCode (netinfo w).
Proof.
  intros Hw Hp.
  assert (Hreg : ∀ x, x ∈ nets_of (netinfo w) ↔ registered w x).
  { intros x. rewrite elem_of_nets_of. split; [by right|].
    intros Hx. exists (m_netname (mem w x)). by apply registered_names. }
  pose proof (NoDup_nets_of w Hw) as Hnd.
  assert (Hin : p ∈ nets_of (netinfo w)) by (by apply Hreg).
  assert (Hcount : default 0 (foldl (count_short nm) ∅ (nets_of (netinfo w))
                               !! m_shortNetname (nm p)) = 1 ↔
                   ∀ q, registered w q → m_shortNetname (nm q) = m_shortNetname (nm p) → q = p).
  { rewrite count_short_fold, lookup_empty. simpl.
    pose proof (count_one_iff_unique _ (fun q => m_shortNetname (nm q)) p Hnd Hin) as Hu.
    simpl in Hu. split.
    - intros Hc q Hq Hs. apply (proj1 Hu); [lia | by apply Hreg | done].
    - intros Hq. assert (Hlen := proj2 Hu (fun q Hq' Hs => Hq q (proj1 (Hreg q) Hq') Hs)).
      lia. }
  unfold RebuildDisplayNetnames. cbn [fst snd netinfo m_DisplayNetnamesDirty
    m_netNames m_netCodes m_newNetCode mem].
  split_and!; try done.
  - rewrite set_display_fold, decide_True by done. done.
  - intros Huniq. rewrite set_display_fold, decide_True by done.
    unfold display_of. cbn. rewrite decide_True; [done|]. by apply Hcount.
  - intros q Hq Hqp Hs. rewrite set_display_fold, decide_True by done.
    unfold display_of. cbn. rewrite decide_False; [done|].
    intros Hc. apply Hqp. by apply (proj1 Hcount Hc).
  - intros x Hx. rewrite set_display_fold, decide_False; [done|]. by rewrite Hreg.
Qed.

Lemma X18_display_name_rule_witness :
  m_shortNetname ((RebuildDisplayNetnames (fun s => s) larger_world sample_names).2 1%nat)
    = m_shortNetname (sample_names 1%nat) ∧
  ((∀ q, registered larger_world q →
         m_shortNetname (sample_names q) = m_shortNetname (sample_names 1%nat) → q = 1%nat) →
   m_displayNetname ((RebuildDisplayNetnames (fun s => s) larger_world sample_names).2 1%nat)
     = m_shortNetname (sample_names 1%nat)) ∧
  (∀ q, registered larger_world q → q ≠ 1%nat →
        m_shortNetname (sample_names q) = m_shortNetname (sample_names 1%nat) →
   m_displayNetname ((RebuildDisplayNetnames (fun s => s) larger_world sample_names).2 1%nat)
     = m_netname (mem larger_world 1%nat)) ∧
  (∀ x, ¬ registered larger_world x →
        (RebuildDisplayNetnames (fun s => s) larger_world sample_names).2 x = sample_names x) ∧
  m_DisplayNetnamesDirty
    (netinfo (RebuildDisplayNetnames (fun s => s) larger_world sample_names).1) = false ∧
  m_netNames (netinfo (RebuildDisplayNetnames (fun s => s) larger_world sample_names).1)
    = m_netNames (netinfo larger_world) ∧
  m_netCodes (netinfo (RebuildDisplayNetnames (fun s => s) larger_world sample_names).1)
    = m_netCodes (netinfo larger_world) ∧
  m_newNetCode (netinfo (RebuildDisplayNetnames (fun s => s) larger_world sample_names).1)
    = m_newNetCode (netinfo larger_world).
Proof.
  apply (X18_display_name_rule (fun s => s) larger_world sample_names 1%nat);
    decide_by_computation.
Defined.

Example displayed_names_sample :
  (fun p => m_displayNetname (displayed_names p)) <$> [0; 1; 2; 4]%nat
    = [""; "GND"; "VCC"; "CLK"].
Proof. by_computation. Qed.

Lemma rebuild_ext U (w : world) (nm1 nm2 : name_memory) p :
  (∀ x, m_shortNetname (nm1 x) = m_shortNetname (nm2 x)) →
  p ∈ nets_of (netinfo w) →
  (RebuildDisplayNetnames U w nm1).2 p = (RebuildDisplayNetnames U w nm2).2 p.
Proof.
  intros Hs Hp. unfold RebuildDisplayNetnames. cbn [snd].
  rewrite !set_display_fold, !decide_True by done.
  unfold display_of. rewrite !count_short_fold, !lookup_empty, Hs. simpl.
  rewrite (filter_length_ext (fun q => m_shortNetname (nm1 q) = m_shortNetname (nm2 p))
             (fun q => m_shortNetname (nm2 q) = m_shortNetname (nm2 p))); [done|].
  intros x. by rewrite Hs.
Qed.

Lemma rebuild_short U (w : world) (nm : name_memory) x :
  m_shortNetname ((RebuildDisplayNetnames U w nm).2 x) = m_shortNetname (nm x).
Proof.
  unfold RebuildDisplayNetnames. cbn [snd]. rewrite set_display_fold. by case_decide.
Qed.

(** X19: the display names are computed from the short names and the full
    names alone: two tables of names that agree on the short names get the
    same names for every net of the registry, whatever display names they
    held before. *)
Theorem X19_display_names_from_scratch (UnescapeString : string → string)
  (w : world) (nm1 nm2 : name_memory) (n : string) (p : ptr) :
  (∀ x, m_shortNetname (nm1 x) = m_shortNetname (nm2 x)) →
  GetNetItem_name (netinfo w) n = Some p →
  (RebuildDisplayNetnames UnescapeString w nm1).2 p =
  (RebuildDisplayNetnames UnescapeString w nm2).2 p.
Proof.
  intros Hs Hp. apply rebuild_ext; [done|]. apply elem_of_nets_of. eauto.
Qed.

Lemma X19_display_names_from_scratch_witness :
  (RebuildDisplayNetnames (fun s => s) larger_world sample_names).2 4%nat =
  (RebuildDisplayNetnames (fun s => s) larger_world displayed_names).2 4%nat.
Proof.
  apply (X19_display_names_from_scratch (fun s => s) larger_world
           sample_names displayed_names "CLK" 4%nat).
  - intros x. symmetry. apply rebuild_short.
  - vm_compute; reflexivity.
Defined.

(** X20: [RebuildDisplayNetnames] is idempotent: run on its own result it
    changes no name, and the registry it returns is the same. *)
Theorem X20_RebuildDisplayNetnames_twice (UnescapeString : string → string)
  (w : world) (nm : name_memory) (x : ptr) :
  (RebuildDisplayNetnames UnescapeString
     (RebuildDisplayNetnames UnescapeString w nm).1
     (RebuildDisplayNetnames UnescapeString w nm).2).2 x
    = (RebuildDisplayNetnames UnescapeString w nm).2 x ∧
  (RebuildDisplayNetnames UnescapeString
     (RebuildDisplayNetnames UnescapeString w nm).1
     (RebuildDisplayNetnames UnescapeString w nm).2).1
    = (RebuildDisplayNetnames UnescapeString w nm).1.
Proof.
  split; [|done].
  destruct (decide (x ∈ nets_of (netinfo w))) as [Hin|Hout].
  - transitivity ((RebuildDisplayNetnames UnescapeString
                     (RebuildDisplayNetnames UnescapeString w nm).1 nm).2 x).
    + apply rebuild_ext; [|done]. intros y. apply rebuild_short.
    + done.
  - unfold RebuildDisplayNetnames at 1. cbn [snd fst netinfo m_netNames mem].
    rewrite set_display_fold. by rewrite decide_False.
Qed.

(** ** Field name templates *)

Lemma resolve_fold project resolved globals :
  foldl (resolve_step project) resolved globals = resolved ++ globals.
Proof.
  revert resolved. induction globals as [|g gs IH]; intros resolved; simpl.
  - by rewrite app_nil_r.
  - rewrite IH. unfold resolve_step. by rewrite <- app_assoc.
Qed.

Lemma resolveTemplates_resolved t :
  m_resolved (resolveTemplates t) = m_project t ++ m_globals t.
Proof. unfold resolveTemplates. cbn. apply resolve_fold. Qed.

Lemma overwrite_same_name_None f l :
  overwrite_same_name f l = None ↔ m_Name f ∉ m_Name <$> l.
Proof.
  induction l as [|x l IH]; simpl.
  - split; [intros _; apply not_elem_of_nil | done].
  - rewrite not_elem_of_cons. case_decide as Hx.
    + split; [done | intros [? _]; congruence].
    + rewrite fmap_None, IH. split; [intros ?; split; [congruence | done] | by intros [_ ?]].
Qed.

Lemma overwrite_same_name_names f l l' :
  overwrite_same_name f l = Some l' → m_Name <$> l' = m_Name <$> l.
Proof.
  revert l'. induction l as [|x l IH]; intros l'; simpl; [done|].
  case_decide as Hx.
  - intros [= <-]. simpl. by rewrite Hx.
  - intros (l'' & Hl & ->)%fmap_Some. rewrite !fmap_cons. by rewrite (IH l'').
Qed.

Lemma overwrite_same_name_elem f l l' x :
  overwrite_same_name f l = Some l' → x ∈ l' → x = f ∨ x ∈ l.
Proof.
  revert l'. induction l as [|y l IH]; intros l'; simpl; [done|].
  case_decide as Hy.
  - intros [= <-] [->|Hin]%elem_of_cons; [by left | right; by right].
  - intros (l'' & Hl & ->)%fmap_Some [->|Hin]%elem_of_cons; [right; by left|].
    destruct (IH l'' Hl Hin) as [->|?]; [by left | right; by right].
Qed.

Lemma overwrite_same_name_mem f l l' :
  overwrite_same_name f l = Some l' → f ∈ l'.
Proof.
  revert l'. induction l as [|y l IH]; intros l'; simpl; [done|].
  case_decide as Hy.
  - intros [= <-]. by left.
  - intros (l'' & Hl & ->)%fmap_Some. right. by apply IH.
Qed.

(** X21: whenever the resolved list is computed it is the project templates
    followed by all the global templates: the inner loop removes nothing, so
    a global template that shares its name with a project template is listed
    as well, after it. *)
Theorem X21_resolved_is_project_then_globals (t : TEMPLATES) :
  m_resolvedDirty t = true →
  (GetTemplateFieldNames t).2 = m_project t ++ m_globals t ∧
  m_resolvedDirty (GetTemplateFieldNames t).1 = false ∧
  m_project (GetTemplateFieldNames t).1 = m_project t ∧
  m_globals (GetTemplateFieldNames t).1 = m_globals t.
Proof.
  intros Hd. unfold GetTemplateFieldNames. rewrite Hd. cbn.
  by rewrite resolve_fold.
Qed.

Lemma X21_resolved_is_project_then_globals_witness :
  (GetTemplateFieldNames sample_templates).2
    = m_project sample_templates ++ m_globals sample_templates ∧
  m_resolvedDirty (GetTemplateFieldNames sample_templates).1 = false ∧
  m_project (GetTemplateFieldNames sample_templates).1 = m_project sample_templates ∧
  m_globals (GetTemplateFieldNames sample_templates).1 = m_globals sample_templates.
Proof.
  apply (X21_resolved_is_project_then_globals sample_templates). reflexivity.
Defined.

Example resolved_lists_shared_name_twice :
  m_Name <$> (GetTemplateFieldNames sample_templates).2 = ["MPN"; "MPN"; "Vendor"].
Proof. reflexivity. Qed.

Lemma AddTemplateFieldName_resolved_ok MF GC f g t :
  resolved_ok t → resolved_ok (AddTemplateFieldName MF GC f g t).
Proof.
  intros Ht. unfold AddTemplateFieldName.
  destruct (is_mandatory MF GC (m_Name f)); [done|]. by intros ?.
Qed.

Lemma DeleteAllFieldNameTemplates_resolved_ok g t :
  resolved_ok (DeleteAllFieldNameTemplates g t).
Proof. destruct g; intros _; cbn; [by rewrite app_nil_r | done]. Qed.

(** X22: the cache is never stale: after [AddTemplateFieldName] or
    [DeleteAllFieldNameTemplates], [GetTemplateFieldNames] returns the
    project templates followed by the global ones of the state it is called
    in. *)
Theorem X22_resolved_cache_is_never_stale (MF : nat) (GC : nat → string)
  (f : TEMPLATE_FIELDNAME) (g : bool) (t : TEMPLATES) :
  resolved_ok t →
  (GetTemplateFieldNames (AddTemplateFieldName MF GC f g t)).2 =
    m_project (AddTemplateFieldName MF GC f g t) ++
    m_globals (AddTemplateFieldName MF GC f g t) ∧
  (GetTemplateFieldNames (DeleteAllFieldNameTemplates g t)).2 =
    m_project (DeleteAllFieldNameTemplates g t) ++
    m_globals (DeleteAllFieldNameTemplates g t).
Proof.
  intros Ht.
  assert (Hget : ∀ t', resolved_ok t' → (GetTemplateFieldNames t').2 = m_project t' ++ m_globals t').
  { intros t' Ht'. unfold GetTemplateFieldNames.
    destruct (m_resolvedDirty t') eqn:Hd; cbn; [apply resolve_fold | by apply Ht']. }
  split; apply Hget.
  - by apply AddTemplateFieldName_resolved_ok.
  - apply DeleteAllFieldNameTemplates_resolved_ok.
Qed.

Lemma X22_resolved_cache_is_never_stale_witness :
  (GetTemplateFieldNames
     (AddTemplateFieldName 5 sample_canonical (mkField "Value" true true) false
        sample_templates)).2 =
    m_project (AddTemplateFieldName 5 sample_canonical (mkField "Value" true true) false
                 sample_templates) ++
    m_globals (AddTemplateFieldName 5 sample_canonical (mkField "Value" true true) false
                 sample_templates) ∧
  (GetTemplateFieldNames (DeleteAllFieldNameTemplates false sample_templates)).2 =
    m_project (DeleteAllFieldNameTemplates false sample_templates) ++
    m_globals (DeleteAllFieldNameTemplates false sample_templates).
Proof.
  apply (X22_resolved_cache_is_never_stale 5 sample_canonical (mkField "Value" true true)
           false sample_templates).
  intros Hd. discriminate Hd.
Defined.

Lemma add_to_target_well_named MF GC f l :
  is_mandatory MF GC (m_Name f) = false →
  well_named MF GC l →
  well_named MF GC (match overwrite_same_name f l with
                    | Some overwritten => overwritten
                    | None => l ++ [f]
                    end) ∧
  f ∈ match overwrite_same_name f l with
      | Some overwritten => overwritten
      | None => l ++ [f]
      end.
Proof.
  intros Hf [Hnd Hman]. destruct (overwrite_same_name f l) as [o|] eqn:Ho.
  - split; [split|].
    + by rewrite (overwrite_same_name_names f l o).
    + intros x Hx. destruct (overwrite_same_name_elem f l o x Ho Hx) as [->|?];
        [done | by apply Hman].
    + by eapply overwrite_same_name_mem.
  - split; [split|].
    + rewrite fmap_app. apply list.NoDup_app. split_and!; [done | | apply NoDup_singleton].
      intros n Hn ->%list_elem_of_singleton. by apply overwrite_same_name_None in Ho.
    + intros x [Hx| ->%list_elem_of_singleton]%elem_of_app; [by apply Hman | done].
    + apply elem_of_app. right. by apply list_elem_of_singleton.
Qed.

Lemma overwrite_same_name_at f l i old :
  NoDup (m_Name <$> l) →
  l !! i = Some old →
  m_Name old = m_Name f →
  overwrite_same_name f l = Some (<[i := f]> l).
Proof.
  revert i. induction l as [|x l IH]; intros i Hnd Hi Hname; [done|].
  rewrite fmap_cons in Hnd. apply list.NoDup_cons in Hnd as [Hx Hnd].
  destruct i as [|i]; simpl in *.
  - injection Hi as ->. by rewrite decide_True.
  - rewrite decide_False.
    + by rewrite (IH i Hnd Hi Hname).
    + intros Heq. apply Hx. rewrite Heq, <- Hname.
      apply list_elem_of_fmap. exists old. split; [done|]. by eapply list_elem_of_lookup_2.
Qed.

(** X23: [AddTemplateFieldName] keeps the names of the list it adds to
    distinct and free of mandatory names, and does not touch the other list.
    A template with a mandatory name changes nothing at all.  Any other
    template is in the list afterwards: where the list has a template of
    that name, at index i, the result is the list with the new template
    stored at index i and every other entry as it was; where it has none,
    the result is the list with the new template added at its end.  The
    resolved list is not recomputed and is flagged as stale. *)
Theorem X23_AddTemplateFieldName_keeps_names_unique (MF : nat) (GC : nat → string)
  (f : TEMPLATE_FIELDNAME) (g : bool) (t : TEMPLATES) :
  well_named MF GC (GetTemplateFieldNames_of g t) →
  well_named MF GC (GetTemplateFieldNames_of g (AddTemplateFieldName MF GC f g t)) ∧
  GetTemplateFieldNames_of (negb g) (AddTemplateFieldName MF GC f g t)
    = GetTemplateFieldNames_of (negb g) t ∧
  (is_mandatory MF GC (m_Name f) = true → AddTemplateFieldName MF GC f g t = t) ∧
  (is_mandatory MF GC (m_Name f) = false →
   f ∈ GetTemplateFieldNames_of g (AddTemplateFieldName MF GC f g t) ∧
   (∀ i old, GetTemplateFieldNames_of g t !! i = Some old →
             m_Name old = m_Name f →
             GetTemplateFieldNames_of g (AddTemplateFieldName MF GC f g t)
               = <[i := f]> (GetTemplateFieldNames_of g t)) ∧
   (m_Name f ∉ m_Name <$> GetTemplateFieldNames_of g t →
    GetTemplateFieldNames_of g (AddTemplateFieldName MF GC f g t)
      = GetTemplateFieldNames_of g t ++ [f]) ∧
   m_resolved (AddTemplateFieldName MF GC f g t) = m_resolved t ∧
   m_resolvedDirty (AddTemplateFieldName MF GC f g t) = true).
Proof.
  intros Hwn. unfold AddTemplateFieldName.
  destruct (is_mandatory MF GC (m_Name f)) eqn:Hf; [done|].
  destruct g; cbn in *;
    destruct (add_to_target_well_named MF GC f _ Hf Hwn) as [Hwn' Hin];
    (split_and!; [done | done | done |]); intros _;
    (split_and!; [done | | | done | done]).
  - intros i old Hi Hname.
    by rewrite (overwrite_same_name_at f _ i old (proj1 Hwn) Hi Hname).
  - intros Hno%overwrite_same_name_None. by rewrite Hno.
  - intros i old Hi Hname.
    by rewrite (overwrite_same_name_at f _ i old (proj1 Hwn) Hi Hname).
  - intros Hno%overwrite_same_name_None. by rewrite Hno.
Qed.

Lemma X23_AddTemplateFieldName_keeps_names_unique_witness :
  well_named 5 sample_canonical
    (GetTemplateFieldNames_of true
       (AddTemplateFieldName 5 sample_canonical (mkField "Vendor" true true) true
          sample_templates)) ∧
  GetTemplateFieldNames_of (negb true)
    (AddTemplateFieldName 5 sample_canonical (mkField "Vendor" true true) true sample_templates)
    = GetTemplateFieldNames_of (negb true) sample_templates ∧
  (is_mandatory 5 sample_canonical (m_Name (mkField "Vendor" true true)) = true →
   AddTemplateFieldName 5 sample_canonical (mkField "Vendor" true true) true sample_templates
     = sample_templates) ∧
  (is_mandatory 5 sample_canonical (m_Name (mkField "Vendor" true true)) = false →
   mkField "Vendor" true true ∈
     GetTemplateFieldNames_of true
       (AddTemplateFieldName 5 sample_canonical (mkField "Vendor" true true) true
          sample_templates) ∧
   (∀ i old, GetTemplateFieldNames_of true sample_templates !! i = Some old →
             m_Name old = m_Name (mkField "Vendor" true true) →
             GetTemplateFieldNames_of true
               (AddTemplateFieldName 5 sample_canonical (mkField "Vendor" true true) true
                  sample_templates)
               = <[i := mkField "Vendor" true true]>
                   (GetTemplateFieldNames_of true sample_templates)) ∧
   (m_Name (mkField "Vendor" true true)
      ∉ m_Name <$> GetTemplateFieldNames_of true sample_templates →
    GetTemplateFieldNames_of true
      (AddTemplateFieldName 5 sample_canonical (mkField "Vendor" true true) true
         sample_templates)
      = GetTemplateFieldNames_of true sample_templates ++ [mkField "Vendor" true true]) ∧
   m_resolved
     (AddTemplateFieldName 5 sample_canonical (mkField "Vendor" true true) true
        sample_templates)
     = m_resolved sample_templates ∧
   m_resolvedDirty
     (AddTemplateFieldName 5 sample_canonical (mkField "Vendor" true true) true
        sample_templates)
     = true).
Proof.
  apply (X23_AddTemplateFieldName_keeps_names_unique 5 sample_canonical
           (mkField "Vendor" true true) true sample_templates).
  split.
  - apply (bool_decide_unpack _). vm_compute. exact I.
  - intros f Hf. cbn in Hf.
    repeat (apply elem_of_cons in Hf as [->|Hf]; [reflexivity|]).
    by apply elem_of_nil in Hf.
Defined.

Example overwrite_keeps_position :
  GetTemplateFieldNames_of true sample_templates
    = [mkField "MPN" true false; mkField "Vendor" false false] ∧
  GetTemplateFieldNames_of true
    (AddTemplateFieldName 5 sample_canonical (mkField "MPN" false true) true sample_templates)
    = [mkField "MPN" false true; mkField "Vendor" false false] ∧
  GetTemplateFieldNames_of true
    (AddTemplateFieldName 5 sample_canonical (mkField "Vendor" true true) true sample_templates)
    = [mkField "MPN" true false; mkField "Vendor" true true] ∧
  GetTemplateFieldNames_of true
    (AddTemplateFieldName 5 sample_canonical (mkField "Tolerance" true true) true
       sample_templates)
    = [mkField "MPN" true false; mkField "Vendor" false false; mkField "Tolerance" true true] ∧
  AddTemplateFieldName 5 sample_canonical (mkField "Value" true true) false sample_templates
    = sample_templates.
Proof. repeat split; reflexivity. Qed.

Lemma list_find_app_name (aName : string) (l1 l2 : list TEMPLATE_FIELDNAME) :
  snd <$> list_find (fun field => m_Name field = aName) (l1 ++ l2) =
  match snd <$> list_find (fun field => m_Name field = aName) l1 with
  | Some f => Some f
  | None => snd <$> list_find (fun field => m_Name field = aName) l2
  end.
Proof.
  induction l1 as [|x l1 IH]; simpl; [done|].
  case_decide; [done|].
  destruct (list_find (fun field => m_Name field = aName) (l1 ++ l2)) as [[i f]|];
    destruct (list_find (fun field => m_Name field = aName) l1) as [[j f']|];
    simpl in *; done.
Qed.

(** X24: [GetFieldName] answers from the project templates first: a project
    template of the asked name hides a global one; a global template is
    returned only when no project template has that name, and [nullptr] when
    neither list has one. *)
Theorem X24_GetFieldName_project_first (aName : string) (t : TEMPLATES) :
  resolved_ok t →
  (GetFieldName aName t).2 =
    match snd <$> list_find (fun field => m_Name field = aName) (m_project t) with
    | Some f => Some f
    | None => snd <$> list_find (fun field => m_Name field = aName) (m_globals t)
    end.
Proof.
  intros Ht. unfold GetFieldName. cbn [snd].
  assert (m_resolved (if m_resolvedDirty t then resolveTemplates t else t)
          = m_project t ++ m_globals t) as ->.
  { destruct (m_resolvedDirty t) eqn:Hd; [apply resolveTemplates_resolved | by apply Ht]. }
  apply list_find_app_name.
Qed.

Lemma X24_GetFieldName_project_first_witness :
  (GetFieldName "MPN" sample_templates).2 =
    match snd <$> list_find (fun field => m_Name field = "MPN") (m_project sample_templates) with
    | Some f => Some f
    | None => snd <$> list_find (fun field => m_Name field = "MPN") (m_globals sample_templates)
    end.
Proof.
  apply (X24_GetFieldName_project_first "MPN" sample_templates). intros Hd. discriminate Hd.
Defined.

Example GetFieldName_sample :
  (GetFieldName "MPN" sample_templates).2 = Some (mkField "MPN" false false) ∧
  (GetFieldName "Vendor" sample_templates).2 = Some (mkField "Vendor" false false) ∧
  (GetFieldName "Tolerance" sample_templates).2 = None.
Proof. split_and!; reflexivity. Qed.
